(** * react-useauth: the auth provider, the route guard and the route table

    A shallow embedding of [AuthContext.js] ([AuthProvider], [login],
    [logout], [useAuth]), [ProtectedRoute.js], the pages and [App.js],
    together with the two platform services the provider relies on:
    [localStorage] (a finite map from strings to strings) and
    [JSON.stringify] / [JSON.parse] on the JSON fragment of JavaScript
    values.

    Conventions of the model:
    - a JavaScript string is a [string]; each character stands for one
      code unit below 256;
    - a JavaScript number is a safe integer ([Z], magnitude below 2^53);
      number literals with a fraction or an exponent, integers outside
      the safe range, negative zero and [\u] escapes above 255 make the
      parser answer [PUnmodelled] instead of guessing;
    - [useState] setters are applied at once: the state after a handler
      or an effect is the state React commits for the next render;
    - [localStorage] has no quota: [setItem] always succeeds;
    - the router's pattern matcher is a parameter of the route table. *)

From Stdlib Require Import ZArith List Ascii String Bool Lia.
From Stdlib Require Import Decimal DecimalFacts DecimalPos DecimalN DecimalZ.
From stdpp Require Import gmap strings list.

Import ListNotations.

(** ** Characters *)

Module Chars.

Definition dq : ascii := "034"%char.          (* the double quote *)
Definition backslash : ascii := "\"%char.
Definition slash : ascii := "/"%char.

Definition chars (s : string) : list ascii := list_ascii_of_string s.
Definition text (cs : list ascii) : string := string_of_list_ascii cs.

Definition code (c : ascii) : N := N_of_ascii c.

Definition is_ws (c : ascii) : bool :=
  (code c =? 32)%N || (code c =? 9)%N || (code c =? 10)%N || (code c =? 13)%N.

Definition is_digit (c : ascii) : bool :=
  (48 <=? code c)%N && (code c <=? 57)%N.

Definition is_control (c : ascii) : bool := (code c <? 32)%N.

(** Lower-case hexadecimal digit of a number below 16. *)
Definition hex_digit (n : N) : ascii :=
  if (n <? 10)%N then ascii_of_N (48 + n) else ascii_of_N (87 + n).

(** Value of a hexadecimal digit, either case. *)
Definition hex_value (c : ascii) : option N :=
  let n := code c in
  if (48 <=? n)%N && (n <=? 57)%N then Some (n - 48)%N
  else if (97 <=? n)%N && (n <=? 102)%N then Some (n - 87)%N
  else if (65 <=? n)%N && (n <=? 70)%N then Some (n - 55)%N
  else None.

End Chars.
Import Chars.

(** ** JavaScript values (the JSON fragment) *)

#[local] Unset Elimination Schemes.
Inductive value : Type :=
| VNull
| VBool (b : bool)
| VNum (n : Z)
| VStr (s : string)
| VArr (elems : list value)
| VObj (props : list (string * value)).
#[local] Set Elimination Schemes.

(** Induction with the hypothesis available on array elements and on
    property values. *)
Section ValueInd.
Variable P : value -> Prop.
Hypothesis Hnull : P VNull.
Hypothesis Hbool : forall b, P (VBool b).
Hypothesis Hnum : forall n, P (VNum n).
Hypothesis Hstr : forall s, P (VStr s).
Hypothesis Harr : forall l, Forall P l -> P (VArr l).
Hypothesis Hobj : forall ps, Forall (fun kv => P (snd kv)) ps -> P (VObj ps).

Fixpoint value_nested_ind (v : value) : P v :=
  match v with
  | VNull => Hnull
  | VBool b => Hbool b
  | VNum n => Hnum n
  | VStr s => Hstr s
  | VArr l =>
      Harr l ((fix go (l : list value) : Forall P l :=
                 match l with
                 | [] => List.Forall_nil P
                 | x :: l' => List.Forall_cons _ x l' (value_nested_ind x) (go l')
                 end) l)
  | VObj ps =>
      Hobj ps ((fix go (ps : list (string * value))
                  : Forall (fun kv => P (snd kv)) ps :=
                  match ps with
                  | [] => List.Forall_nil _
                  | kv :: ps' =>
                      List.Forall_cons _ kv ps' (value_nested_ind (snd kv)) (go ps')
                  end) ps)
  end.
End ValueInd.

(** [ToBoolean]: what [if (x)], [!x] and [x ? a : b] look at. *)
Definition truthy (v : value) : bool :=
  match v with
  | VNull => false
  | VBool b => b
  | VNum n => negb (n =? 0)%Z
  | VStr s => negb (String.eqb s EmptyString)
  | VArr _ => true
  | VObj _ => true
  end.

(** [localStorage.getItem] answers [null] or a string; a string is truthy
    when it is not empty. *)
Definition truthy_item (o : option string) : bool :=
  match o with
  | None => false
  | Some s => negb (String.eqb s EmptyString)
  end.

(** ** [JSON.stringify] *)

Module Stringify.

(** [QuoteJSONString], one code unit at a time. *)
Definition quote_char (c : ascii) : list ascii :=
  if (code c =? 34)%N then [backslash; dq]
  else if (code c =? 92)%N then [backslash; backslash]
  else if (code c =? 8)%N then [backslash; "b"%char]
  else if (code c =? 9)%N then [backslash; "t"%char]
  else if (code c =? 10)%N then [backslash; "n"%char]
  else if (code c =? 12)%N then [backslash; "f"%char]
  else if (code c =? 13)%N then [backslash; "r"%char]
  else if is_control c then
    [backslash; "u"%char; "0"%char; "0"%char;
     hex_digit (code c / 16); hex_digit (code c mod 16)]
  else [c].

Definition quote_string (s : string) : list ascii :=
  dq :: flat_map quote_char (chars s) ++ [dq].

Fixpoint uint_chars (u : uint) : list ascii :=
  match u with
  | Nil => []
  | D0 u => "0"%char :: uint_chars u
  | D1 u => "1"%char :: uint_chars u
  | D2 u => "2"%char :: uint_chars u
  | D3 u => "3"%char :: uint_chars u
  | D4 u => "4"%char :: uint_chars u
  | D5 u => "5"%char :: uint_chars u
  | D6 u => "6"%char :: uint_chars u
  | D7 u => "7"%char :: uint_chars u
  | D8 u => "8"%char :: uint_chars u
  | D9 u => "9"%char :: uint_chars u
  end.

(** [Number::toString] on an integer: decimal digits, a leading minus
    sign for negatives. *)
Definition number_chars (n : Z) : list ascii :=
  match Z.to_int n with
  | Pos u => uint_chars u
  | Neg u => "-"%char :: uint_chars u
  end.

Fixpoint comma_join (parts : list (list ascii)) : list ascii :=
  match parts with
  | [] => []
  | [p] => p
  | p :: rest => p ++ ","%char :: comma_join rest
  end.

(** [SerializeJSONProperty] without indentation (no [space] argument is
    passed by [login]). *)
Fixpoint stringify_chars (v : value) : list ascii :=
  match v with
  | VNull => chars "null"
  | VBool true => chars "true"
  | VBool false => chars "false"
  | VNum n => number_chars n
  | VStr s => quote_string s
  | VArr l => "["%char :: comma_join (map stringify_chars l) ++ ["]"%char]
  | VObj ps =>
      "{"%char ::
      comma_join
        (map (fun kv => quote_string (fst kv) ++ ":"%char :: stringify_chars (snd kv)) ps)
      ++ ["}"%char]
  end.

Definition JSON_stringify (v : value) : string := text (stringify_chars v).

(** A text between double quotes, for writing JSON texts down. *)
Definition quoted (s : string) : string := text (dq :: chars s ++ [dq]).

End Stringify.
Import Stringify.

(** ** [JSON.parse] *)

Module Parse.

(** Outcome of parsing: a result, the [SyntaxError] that [JSON.parse]
    throws, or a text outside the modelled fragment (see the conventions
    at the top). [POutOfFuel] is the recursion bound of the model being
    hit; [JSON_parse] never ends that way. *)
Inductive presult (A : Type) : Type :=
| POk (a : A)
| PSyntaxError
| PUnmodelled
| POutOfFuel.
Arguments POk {A} a.
Arguments PSyntaxError {A}.
Arguments PUnmodelled {A}.
Arguments POutOfFuel {A}.

#[export] Instance presult_bind : MBind presult := fun A B f m =>
  match m with
  | POk a => f a
  | PSyntaxError => PSyntaxError
  | PUnmodelled => PUnmodelled
  | POutOfFuel => POutOfFuel
  end.

Fixpoint skip_ws (s : list ascii) : list ascii :=
  match s with
  | c :: s' => if is_ws c then skip_ws s' else s
  | [] => []
  end.

Definition digit_of (c : ascii) : option (uint -> uint) :=
  match code c with
  | 48 => Some D0 | 49 => Some D1 | 50 => Some D2 | 51 => Some D3
  | 52 => Some D4 | 53 => Some D5 | 54 => Some D6 | 55 => Some D7
  | 56 => Some D8 | 57 => Some D9
  | _ => None
  end%N.

(** The longest run of decimal digits at the head of [s]. *)
Fixpoint read_digits (s : list ascii) : uint * list ascii :=
  match s with
  | c :: s' =>
      match digit_of c with
      | Some d => let (u, r) := read_digits s' in (d u, r)
      | None => (Nil, s)
      end
  | [] => (Nil, [])
  end.

(** The grammar of the integer part: [0] or a digit run that does not
    start with [0]. *)
Definition canonical (u : uint) : bool :=
  match u with
  | Nil => false
  | D0 Nil => true
  | D0 _ => false
  | _ => true
  end.

Definition safe_max : Z := 9007199254740991.   (* 2^53 - 1 *)

Definition fraction_or_exponent (r : list ascii) : bool :=
  match r with
  | c :: _ => (code c =? 46)%N || (code c =? 101)%N || (code c =? 69)%N
  | [] => false
  end.

(** The digits of a number literal, after its sign. *)
Definition parse_digits (neg : bool) (s : list ascii) : presult (value * list ascii) :=
  let '(u, r) := read_digits s in
  if negb (canonical u) then PSyntaxError
  else if fraction_or_exponent r then PUnmodelled
  else
    let n := Z.of_uint u in
    if (safe_max <? n)%Z then PUnmodelled
    else if neg && (n =? 0)%Z then PUnmodelled
    else POk (VNum (if neg then - n else n)%Z, r).

Definition parse_number (s : list ascii) : presult (value * list ascii) :=
  match s with
  | c :: r => if (code c =? 45)%N then parse_digits true r else parse_digits false s
  | [] => PSyntaxError
  end.

(** The character an escape letter stands for. *)
Definition simple_escape (e : ascii) : option ascii :=
  match code e with
  | 34 => Some dq
  | 92 => Some backslash
  | 47 => Some slash
  | 98 => Some (ascii_of_N 8)
  | 102 => Some (ascii_of_N 12)
  | 110 => Some (ascii_of_N 10)
  | 114 => Some (ascii_of_N 13)
  | 116 => Some (ascii_of_N 9)
  | _ => None
  end%N.

Definition hex4 (h1 h2 h3 h4 : ascii) : option N :=
  match hex_value h1, hex_value h2, hex_value h3, hex_value h4 with
  | Some a, Some b, Some c, Some d => Some (((a * 16 + b) * 16 + c) * 16 + d)%N
  | _, _, _, _ => None
  end.

(** The characters of a string literal after its opening quote, up to
    and including the closing quote. *)
Fixpoint parse_string_body (s : list ascii) : presult (list ascii * list ascii) :=
  match s with
  | [] => PSyntaxError
  | c :: s' =>
      if (code c =? 34)%N then POk ([], s')
      else if (code c =? 92)%N then
        match s' with
        | [] => PSyntaxError
        | e :: s'' =>
            if (code e =? 117)%N then
              match s'' with
              | h1 :: h2 :: h3 :: h4 :: s3 =>
                  match hex4 h1 h2 h3 h4 with
                  | None => PSyntaxError
                  | Some n =>
                      if (n <? 256)%N then
                        '(cs, r) ← parse_string_body s3; POk (ascii_of_N n :: cs, r)
                      else PUnmodelled
                  end
              | _ => PSyntaxError
              end
            else
              match simple_escape e with
              | None => PSyntaxError
              | Some c' => '(cs, r) ← parse_string_body s''; POk (c' :: cs, r)
              end
        end
      else if is_control c then PSyntaxError
      else '(cs, r) ← parse_string_body s'; POk (c :: cs, r)
  end.

Fixpoint strip_prefix (p s : list ascii) : option (list ascii) :=
  match p, s with
  | [], _ => Some s
  | a :: p', b :: s' => if Ascii.eqb a b then strip_prefix p' s' else None
  | _ :: _, [] => None
  end.

Definition parse_literal (lit : string) (v : value) (s : list ascii)
  : presult (value * list ascii) :=
  match strip_prefix (chars lit) s with
  | Some r => POk (v, r)
  | None => PSyntaxError
  end.

(** *** Property order of objects

    An object lists its own properties with the array-index keys first,
    in ascending numeric order, then the other keys in creation order.
    [define_property] is [CreateDataProperty] on that representation. *)

Definition array_index (k : string) : option N :=
  match read_digits (chars k) with
  | (u, []) =>
      if canonical u && (N.of_uint u <? 4294967295)%N then Some (N.of_uint u)
      else None
  | (_, _ :: _) => None
  end.

Fixpoint has_key (k : string) (o : list (string * value)) : bool :=
  match o with
  | [] => false
  | (k', _) :: o' => String.eqb k k' || has_key k o'
  end.

Fixpoint replace_value (k : string) (v : value) (o : list (string * value))
  : list (string * value) :=
  match o with
  | [] => []
  | (k', v') :: o' =>
      if String.eqb k k' then (k', v) :: o' else (k', v') :: replace_value k v o'
  end.

Fixpoint insert_index (n : N) (k : string) (v : value) (o : list (string * value))
  : list (string * value) :=
  match o with
  | [] => [(k, v)]
  | (k', v') :: o' =>
      match array_index k' with
      | Some n' =>
          if (n <? n')%N then (k, v) :: o else (k', v') :: insert_index n k v o'
      | None => (k, v) :: o
      end
  end.

Definition define_property (o : list (string * value)) (kv : string * value)
  : list (string * value) :=
  let (k, v) := kv in
  if has_key k o then replace_value k v o
  else
    match array_index k with
    | Some n => insert_index n k v o
    | None => o ++ [(k, v)]
    end.

(** *** The recursive descent *)

Fixpoint parse_value (fuel : nat) (s : list ascii) : presult (value * list ascii) :=
  match fuel with
  | O => POutOfFuel
  | S fuel' =>
      match skip_ws s with
      | [] => PSyntaxError
      | c :: r =>
          if is_digit c || (code c =? 45)%N then parse_number (c :: r)
          else if (code c =? 34)%N then
            '(cs, r') ← parse_string_body r; POk (VStr (text cs), r')
          else if (code c =? 91)%N then
            match skip_ws r with
            | [] => PSyntaxError
            | c' :: r' =>
                if (code c' =? 93)%N then POk (VArr [], r')
                else '(l, r'') ← parse_elements fuel' r; POk (VArr l, r'')
            end
          else if (code c =? 123)%N then
            match skip_ws r with
            | [] => PSyntaxError
            | c' :: r' =>
                if (code c' =? 125)%N then POk (VObj [], r')
                else
                  '(ms, r'') ← parse_members fuel' r;
                  POk (VObj (fold_left define_property ms []), r'')
            end
          else if (code c =? 110)%N then parse_literal "null" VNull (c :: r)
          else if (code c =? 116)%N then parse_literal "true" (VBool true) (c :: r)
          else if (code c =? 102)%N then parse_literal "false" (VBool false) (c :: r)
          else PSyntaxError
      end
  end

with parse_elements (fuel : nat) (s : list ascii) : presult (list value * list ascii) :=
  match fuel with
  | O => POutOfFuel
  | S fuel' =>
      '(v, r) ← parse_value fuel' s;
      match skip_ws r with
      | [] => PSyntaxError
      | c :: r' =>
          if (code c =? 44)%N then
            '(l, r'') ← parse_elements fuel' r'; POk (v :: l, r'')
          else if (code c =? 93)%N then POk ([v], r')
          else PSyntaxError
      end
  end

with parse_members (fuel : nat) (s : list ascii)
  : presult (list (string * value) * list ascii) :=
  match fuel with
  | O => POutOfFuel
  | S fuel' =>
      match skip_ws s with
      | [] => PSyntaxError
      | q :: r =>
          if negb (code q =? 34)%N then PSyntaxError
          else
            '(k, r1) ← parse_string_body r;
            match skip_ws r1 with
            | [] => PSyntaxError
            | c1 :: r2 =>
                if negb (code c1 =? 58)%N then PSyntaxError
                else
                  '(v, r3) ← parse_value fuel' r2;
                  match skip_ws r3 with
                  | [] => PSyntaxError
                  | c3 :: r4 =>
                      if (code c3 =? 44)%N then
                        '(ms, r5) ← parse_members fuel' r4;
                        POk ((text k, v) :: ms, r5)
                      else if (code c3 =? 125)%N then POk ([(text k, v)], r4)
                      else PSyntaxError
                  end
            end
      end
  end.

(** [JSON.parse(text)] with no reviver. *)
Definition JSON_parse (t : string) : presult value :=
  let cs := chars t in
  '(v, r) ← parse_value (S (2 * length cs)) cs;
  match skip_ws r with
  | [] => POk v
  | _ :: _ => PSyntaxError
  end.

End Parse.
Import Parse.

(** What may follow a value inside a printed text. *)
Definition is_delim (c : ascii) : bool :=
  (code c =? 44)%N || (code c =? 93)%N || (code c =? 125)%N.

Definition delimited (r : list ascii) : bool :=
  match r with
  | [] => true
  | c :: _ => is_delim c
  end.

(** *** Values that [JSON.stringify] writes without loss

    Numbers are safe integers; the properties of an object are listed in
    the order an object keeps them, with no key twice. *)

Module Wf.

Definition index_before (n : N) (k : string) : bool :=
  match array_index k with
  | Some n' => (n <? n')%N
  | None => true
  end.

Definition index_below (n : N) (k : string) : bool :=
  match array_index k with
  | Some n' => (n' <? n)%N
  | None => false
  end.

Definition not_index (k : string) : bool :=
  match array_index k with
  | Some _ => false
  | None => true
  end.

Fixpoint keys_ordered (ks : list string) : bool :=
  match ks with
  | [] => true
  | k :: ks' =>
      match array_index k with
      | Some n => forallb (index_before n) ks'
      | None => forallb not_index ks'
      end && keys_ordered ks'
  end.

Fixpoint keys_distinct (ks : list string) : bool :=
  match ks with
  | [] => true
  | k :: ks' => negb (existsb (String.eqb k) ks') && keys_distinct ks'
  end.

Definition safe_integer (n : Z) : bool :=
  ((- safe_max <=? n) && (n <=? safe_max))%Z.

Fixpoint wf_value (v : value) : bool :=
  match v with
  | VNull | VBool _ | VStr _ => true
  | VNum n => safe_integer n
  | VArr l => forallb wf_value l
  | VObj ps =>
      keys_ordered (map fst ps) && keys_distinct (map fst ps)
      && forallb (fun kv => wf_value (snd kv)) ps
  end.

(** Number of parser calls a value needs. *)
Fixpoint vsize (v : value) : nat :=
  match v with
  | VArr l => S (list_sum (map (fun x => S (vsize x)) l))
  | VObj ps => S (list_sum (map (fun kv => S (vsize (snd kv))) ps))
  | _ => 1
  end.

(** One printed member of an object: the quoted key, a colon, the value. *)
Definition member_chars (kv : string * value) : list ascii :=
  quote_string (fst kv) ++ ":"%char :: stringify_chars (snd kv).

(** A value that is read back from its printed text, whatever delimiter
    follows it, by a parser with fuel for it. *)
Definition reads_back (v : value) : Prop :=
  wf_value v = true ->
  forall (fuel : nat) (r : list ascii),
    vsize v <= fuel -> delimited r = true ->
    parse_value fuel (stringify_chars v ++ r) = POk (v, r).

End Wf.
Import Wf.

(** ** The running application: component state, storage, location *)

(** The two [useState] cells of [AuthProvider]. *)
Record AuthState : Type := { user : value; loading : bool }.

Record World : Type := {
  auth : AuthState;                       (* state held by AuthProvider *)
  localStorage : gmap string string;      (* window.localStorage *)
  location : string                       (* the router's current pathname *)
}.

Inductive exn : Type := SyntaxError | TypeError.

(** A handler or an effect ends normally, throws, or depends on a text
    the JSON model gives no answer for. *)
Inductive outcome (A : Type) : Type :=
| Ok (a : A) (w : World)
| Throw (e : exn) (w : World)
| Unmodelled.
Arguments Ok {A} a w.
Arguments Throw {A} e w.
Arguments Unmodelled {A}.

Definition M (A : Type) : Type := World -> outcome A.

#[export] Instance M_ret : MRet M := fun A a w => Ok a w.

#[export] Instance M_bind : MBind M := fun A B f m w =>
  match m w with
  | Ok a w' => f a w'
  | Throw e w' => Throw e w'
  | Unmodelled => Unmodelled
  end.

Definition setUser (v : value) : M unit := fun w =>
  Ok tt {| auth := {| user := v; loading := loading (auth w) |};
           localStorage := localStorage w; location := location w |}.

Definition setLoading (b : bool) : M unit := fun w =>
  Ok tt {| auth := {| user := user (auth w); loading := b |};
           localStorage := localStorage w; location := location w |}.

Definition localStorage_getItem (k : string) : M (option string) := fun w =>
  Ok (localStorage w !! k) w.

Definition localStorage_setItem (k t : string) : M unit := fun w =>
  Ok tt {| auth := auth w; localStorage := <[k := t]> (localStorage w);
           location := location w |}.

Definition localStorage_removeItem (k : string) : M unit := fun w =>
  Ok tt {| auth := auth w; localStorage := delete k (localStorage w);
           location := location w |}.

(** [navigate(to)] from [useNavigate]. *)
Definition navigate (to : string) : M unit := fun w =>
  Ok tt {| auth := auth w; localStorage := localStorage w; location := to |}.

(** [JSON.parse(item)]: the argument goes through [ToString], which
    turns [null] into the text [null]. *)
Definition item_text (item : option string) : string :=
  match item with
  | Some t => t
  | None => "null"
  end.

Definition JSON_parse_item (item : option string) : M value := fun w =>
  match JSON_parse (item_text item) with
  | POk v => Ok v w
  | PSyntaxError => Throw SyntaxError w
  | PUnmodelled | POutOfFuel => Unmodelled
  end.

(** ** [AuthContext.js] *)

(** [useState(null)] and [useState(true)]. *)
Definition AuthProvider_initial : AuthState := {| user := VNull; loading := true |}.

(** The effect with the empty dependency list: React runs it once, after
    the first commit of the provider. *)
Definition AuthProvider_effect : M unit :=
  storedUser ← localStorage_getItem "user";
  (if truthy_item storedUser then
     parsed ← JSON_parse_item storedUser; setUser parsed
   else mret tt);;
  setLoading false.

Definition login (userData : value) : M unit :=
  setUser userData;;
  localStorage_setItem "user" (JSON_stringify userData).

Definition logout : M unit :=
  setUser VNull;;
  localStorage_removeItem "user".

(** The object handed to [AuthContext.Provider]. *)
Record AuthValue : Type := {
  ctx_user : value;
  ctx_login : value -> M unit;
  ctx_logout : M unit;
  ctx_loading : bool
}.

Definition AuthProvider_value (st : AuthState) : AuthValue :=
  {| ctx_user := user st; ctx_login := login; ctx_logout := logout;
     ctx_loading := loading st |}.

(** What a context can hold: [null] or the provider's object. *)
Inductive context_value : Type :=
| CtxNull
| CtxObject (a : AuthValue).

(** [createContext(null)]: the default a consumer reads when no provider
    is above it. *)
Definition AuthContext : context_value := CtxNull.

(** [useContext]: the value of the nearest provider above the caller,
    the context's default when there is none. *)
Definition useContext (default : context_value) (nearest : option context_value)
  : context_value :=
  match nearest with
  | Some c => c
  | None => default
  end.

(** Rendering either returns or throws. *)
Inductive rendered (A : Type) : Type :=
| Rendered (a : A)
| RenderThrow (e : exn).
Arguments Rendered {A} a.
Arguments RenderThrow {A} e.

#[export] Instance rendered_bind : MBind rendered := fun A B f m =>
  match m with
  | Rendered a => f a
  | RenderThrow e => RenderThrow e
  end.

Definition useAuth (nearest : option context_value) : rendered context_value :=
  Rendered (useContext AuthContext nearest).

(** [const { user, ... } = x]: destructuring [null] throws a [TypeError]. *)
Definition destructure (c : context_value) : rendered AuthValue :=
  match c with
  | CtxNull => RenderThrow TypeError
  | CtxObject a => Rendered a
  end.

(** The environment of a component rendered below [AuthProvider]. *)
Definition provided (st : AuthState) : option context_value :=
  Some (CtxObject (AuthProvider_value st)).

(** ** Markup

    Markup is kept up to the branch that is rendered; [Some u] in a page
    is the branch taken for a truthy [user], which shows [u.name]. What
    a component gives is the markup its function returns; whether React
    accepts [u.name] as a child when it mounts that markup (it refuses a
    plain object) is not part of the model. *)
Inductive element : Type :=
| ENull                              (* null *)
| ELoading                           (* <div>Loading...</div> *)
| EHome (who : option value)
| ELogin
| EDashboard (who : option value)
| ENotFound
| ENavigation (who : option value).

(** What a render hands to React: markup, and the [useEffect] callbacks
    to run once it is committed. *)
Record view : Type := { markup : element; effect : M unit }.

Definition component : Type := option context_value -> rendered view.

Definition static (e : element) : view := {| markup := e; effect := mret tt |}.

Definition shown (u : value) : option value :=
  if truthy u then Some u else None.

(** ** Pages *)

Definition HomePage : component := fun nearest =>
  c ← useAuth nearest;
  a ← destructure c;
  Rendered (static (EHome (shown (ctx_user a)))).

(** [handleLogin]: the submit handler ([e.preventDefault()] has no part
    in the model). *)
Definition LoginPage_handleLogin (a : AuthValue) (username : string) : M unit :=
  let fakeUserData := VObj [("id", VNum 1); ("name", VStr username)] in
  ctx_login a fakeUserData;;
  navigate "/dashboard".

Definition LoginPage : component := fun nearest =>
  c ← useAuth nearest;
  a ← destructure c;
  Rendered (static ELogin).

Definition DashboardPage_handleLogout (a : AuthValue) : M unit :=
  ctx_logout a;;
  navigate "/login".

Definition DashboardPage : component := fun nearest =>
  c ← useAuth nearest;
  a ← destructure c;
  Rendered (static (EDashboard (shown (ctx_user a)))).

Definition NotFoundPage : component := fun _ =>
  Rendered (static ENotFound).

Definition Navigation : component := fun nearest =>
  c ← useAuth nearest;
  a ← destructure c;
  Rendered (static (ENavigation (shown (ctx_user a)))).

(** ** [ProtectedRoute.js] *)

(** The body of the [useEffect] with dependencies [user, loading, navigate]. *)
Definition ProtectedRoute_effect (user : value) (loading : bool) : M unit :=
  if loading then mret tt
  else if negb (truthy user) then navigate "/login"
  else mret tt.

(** [children] is rendered by React only when the guard returns it. *)
Definition ProtectedRoute (children : component) : component := fun nearest =>
  c ← useAuth nearest;
  a ← destructure c;
  let user := ctx_user a in
  let loading := ctx_loading a in
  if loading then
    Rendered {| markup := ELoading; effect := ProtectedRoute_effect user loading |}
  else if truthy user then
    child ← children nearest;
    Rendered {| markup := markup child;
                effect := effect child;; ProtectedRoute_effect user loading |}
  else
    Rendered {| markup := ENull; effect := ProtectedRoute_effect user loading |}.

(** ** [App.js] *)

Section Router.

(** The router's pattern matcher: [matchPath pattern pathname]. *)
Variable matchPath : string -> string -> bool.

(** [<Routes>]: the element of the first route, in declared order, whose
    pattern matches; nothing when no route matches. The router itself
    ranks the matching patterns by specificity, a static pattern above
    the wildcard; on a table whose wildcard is last, as [App_routes], and
    on a pathname that matches at most one of the other patterns, that
    is the first match in declared order. *)
Definition Routes (routes : list (string * component)) (pathname : string)
  : component :=
  match find (fun r => matchPath (fst r) pathname) routes with
  | Some r => snd r
  | None => fun _ => Rendered (static ENull)
  end.

Definition App_routes : list (string * component) :=
  [ ("/", HomePage);
    ("/login", LoginPage);
    ("/dashboard", ProtectedRoute DashboardPage);
    ("*", NotFoundPage) ].

(** [<AuthProvider><Router><Navigation /><hr /><Routes>...]: the
    navigation bar and the routed page, both below the provider. *)
Definition App (w : World) : rendered (view * view) :=
  let nearest := provided (auth w) in
  nav ← Navigation nearest;
  page ← Routes App_routes (location w) nearest;
  Rendered (nav, page).

End Router.

(** A matcher for static patterns: the wildcard matches every pathname,
    any other pattern matches the pathname equal to it. *)
Definition exact_match (pattern pathname : string) : bool :=
  String.eqb pattern "*" || String.eqb pattern pathname.

(** ** Lifetime of the application *)

(** The world at process start: fresh provider state over whatever the
    storage holds. *)
Definition boot (storage : gmap string string) (pathname : string) : World :=
  {| auth := AuthProvider_initial; localStorage := storage; location := pathname |}.

(** What can happen after the provider is mounted. *)
Inductive event : Type :=
| Login (u : value)            (* some consumer calls login(u) *)
| Logout                       (* some consumer calls logout() *)
| Guard                        (* ProtectedRoute is committed, its effect runs *)
| Navigate (to : string).      (* a link or a handler changes the location *)

Definition handle (ev : event) : M unit :=
  match ev with
  | Login u => login u
  | Logout => logout
  | Guard => fun w => ProtectedRoute_effect (user (auth w)) (loading (auth w)) w
  | Navigate to => navigate to
  end.

Fixpoint run (evs : list event) : M unit :=
  match evs with
  | [] => mret tt
  | ev :: evs' => handle ev;; run evs'
  end.

(** ** The access gate as the specification words it *)

Inductive decision : Type :=
| ShowPlaceholder
| RedirectTo (path : string)
| RenderProtected.

(** What a committed view of the guard amounts to, for a given view of
    the wrapped children. *)
Definition shows_placeholder (v : view) : Prop :=
  markup v = ELoading /\ forall w, effect v w = Ok tt w.

Definition redirects_to (path : string) (v : view) : Prop :=
  markup v = ENull /\ forall w, effect v w = navigate path w.

Definition renders (child v : view) : Prop :=
  markup v = markup child /\ forall w, effect v w = effect child w.

(** The gate in the words of the specification: a placeholder while
    loading, a redirect to the login path when no user is present, the
    protected content otherwise. *)
Definition AccessGate (st : AuthState) : decision :=
  if loading st then ShowPlaceholder
  else
    match user st with
    | VNull => RedirectTo "/login"
    | _ => RenderProtected
    end.

(** The session's user is absent ([null]) or a User record. *)
Definition valid_user (u : value) : bool :=
  match u with
  | VNull | VObj _ => true
  | _ => false
  end.

(** What [ProtectedRoute] looks at: the flag first, then whether [user]
    is truthy. *)
Definition guard_decision (st : AuthState) : decision :=
  if loading st then ShowPlaceholder
  else if truthy (user st) then RenderProtected
  else RedirectTo "/login".

(** A render of the guard carries out decision [d]; [child] is what
    rendering the wrapped children gives. *)
Definition realises (d : decision) (child out : rendered view) : Prop :=
  match d with
  | ShowPlaceholder => exists v, out = Rendered v /\ shows_placeholder v
  | RedirectTo path => exists v, out = Rendered v /\ redirects_to path v
  | RenderProtected =>
      match child with
      | Rendered c => exists v, out = Rendered v /\ renders c v
      | RenderThrow e => out = RenderThrow e
      end
  end.

(** The world in which hydration ended with user [u]. *)
Definition hydrated (u : value) (w : World) : World :=
  {| auth := {| user := u; loading := false |};
     localStorage := localStorage w; location := location w |}.

(** ** Links, commits and the mirror of the session *)

(** The targets of the [<Link to=...>] elements in a piece of markup. *)
Definition links (e : element) : list string :=
  match e with
  | EHome (Some _) => ["/dashboard"]
  | EHome None => ["/login"]
  | ELogin => ["/signup"]
  | ENotFound => ["/"]
  | ENavigation (Some _) => ["/"; "/dashboard"]
  | ENavigation None => ["/"; "/login"]
  | EDashboard _ | ENull | ELoading => []
  end.

(** A render of [App] that React commits: the effects of the navigation
    bar and of the routed page run, in that order. *)
Definition commit (matchPath : string -> string -> bool) : M unit := fun w =>
  match App matchPath w with
  | Rendered (nav, page) => (effect nav;; effect page) w
  | RenderThrow e => Throw e w
  end.

(** The storage mirrors the session: the entry under [user] is the
    serialization of the user in memory, and no entry means no user. *)
Definition in_sync (w : World) : Prop :=
  match localStorage w !! "user" with
  | Some t => t = JSON_stringify (user (auth w))
  | None => user (auth w) = VNull
  end.
(** ** Lexical lemmas *)

Section Lexical.

Lemma text_chars (s : string) : text (chars s) = s.
Proof. apply string_of_list_ascii_of_string. Qed.

Lemma chars_text (cs : list ascii) : chars (text cs) = cs.
Proof. apply list_ascii_of_string_of_list_ascii. Qed.

Lemma code_eqb_true (c : ascii) (n : N) :
  (code c =? n)%N = true -> c = ascii_of_N n.
Proof.
  intros H. apply N.eqb_eq in H. rewrite <- H. unfold code.
  symmetry. apply ascii_N_embedding.
Qed.

Lemma is_delim_cases (c : ascii) :
  is_delim c = true -> c = ","%char \/ c = "]"%char \/ c = "}"%char.
Proof.
  unfold is_delim. intros H.
  apply orb_true_iff in H as [H | H]; [apply orb_true_iff in H as [H | H] |];
    apply code_eqb_true in H; subst; auto.
Qed.

Lemma skip_ws_keep (c : ascii) (s : list ascii) :
  is_ws c = false -> skip_ws (c :: s) = c :: s.
Proof. intros H. simpl. now rewrite H. Qed.

Lemma delimited_skip_ws (r : list ascii) : delimited r = true -> skip_ws r = r.
Proof.
  destruct r as [|c r]; [reflexivity|]. simpl delimited. intros H.
  apply is_delim_cases in H as [-> | [-> | ->]]; reflexivity.
Qed.

Lemma delimited_no_digit (r : list ascii) :
  delimited r = true -> read_digits r = (Nil, r).
Proof.
  destruct r as [|c r]; [reflexivity|]. simpl delimited. intros H.
  apply is_delim_cases in H as [-> | [-> | ->]]; reflexivity.
Qed.

Lemma delimited_no_fraction (r : list ascii) :
  delimited r = true -> fraction_or_exponent r = false.
Proof.
  destruct r as [|c r]; [reflexivity|]. simpl delimited. intros H.
  apply is_delim_cases in H as [-> | [-> | ->]]; reflexivity.
Qed.

Lemma read_digits_uint (u : uint) (r : list ascii) :
  delimited r = true -> read_digits (uint_chars u ++ r) = (u, r).
Proof.
  intros H. induction u; simpl;
    [now apply delimited_no_digit | now rewrite IHu ..].
Qed.

Lemma uint_chars_head (u : uint) :
  u <> Nil ->
  exists c tl, uint_chars u = c :: tl /\ is_digit c = true /\ is_ws c = false.
Proof.
  intros H. destruct u; [congruence | simpl; eauto ..].
Qed.

Lemma nzhead_not_zero_digit (d : uint) :
  match nzhead d with D0 _ => False | _ => True end.
Proof. induction d; simpl; auto. Qed.

Lemma canonical_unorm (d : uint) : canonical (unorm d) = true.
Proof.
  unfold unorm. pose proof (nzhead_not_zero_digit d) as H.
  destruct (nzhead d); simpl; auto; contradiction.
Qed.

Lemma to_uint_normal (p : positive) : unorm (Pos.to_uint p) = Pos.to_uint p.
Proof.
  rewrite <- (DecimalPos.Unsigned.to_of (Pos.to_uint p)).
  rewrite DecimalPos.Unsigned.of_to. reflexivity.
Qed.

Lemma canonical_to_uint (p : positive) : canonical (Pos.to_uint p) = true.
Proof. rewrite <- to_uint_normal. apply canonical_unorm. Qed.

Lemma of_to_uint (p : positive) : Z.of_uint (Pos.to_uint p) = Z.pos p.
Proof. unfold Z.of_uint. now rewrite DecimalPos.Unsigned.of_to. Qed.

End Lexical.

(** ** Numbers and strings read back *)

Lemma number_chars_head (n : Z) :
  exists c tl, number_chars n = c :: tl
               /\ (is_digit c || (code c =? 45)%N) = true /\ is_ws c = false.
Proof.
  unfold number_chars. destruct n as [|p|p]; simpl.
  - eexists _, _. repeat split; reflexivity.
  - destruct (uint_chars_head (Pos.to_uint p)) as (c & tl & -> & Hd & Hw);
      [apply DecimalPos.Unsigned.to_uint_nonnil|].
    exists c, tl. rewrite Hd. auto.
  - eexists _, _. repeat split; reflexivity.
Qed.

Lemma parse_digits_uint (neg : bool) (p : positive) (r : list ascii) :
  (Z.pos p <= safe_max)%Z -> delimited r = true ->
  parse_digits neg (uint_chars (Pos.to_uint p) ++ r)
  = POk (VNum (if neg then Z.neg p else Z.pos p), r).
Proof.
  intros Hp Hr. unfold parse_digits.
  rewrite read_digits_uint by assumption.
  rewrite canonical_to_uint, delimited_no_fraction by assumption.
  rewrite of_to_uint. simpl negb. cbv iota.
  destruct (Z.ltb_spec safe_max (Z.pos p)); [lia|].
  destruct neg; reflexivity.
Qed.

Lemma parse_number_chars (n : Z) (r : list ascii) :
  safe_integer n = true -> delimited r = true ->
  parse_number (number_chars n ++ r) = POk (VNum n, r).
Proof.
  unfold safe_integer. intros Hn Hr.
  apply andb_true_iff in Hn as [Hlo Hhi].
  apply Z.leb_le in Hlo, Hhi.
  unfold number_chars. destruct n as [|p|p]; simpl Z.to_int; cbv iota.
  - simpl. unfold parse_digits. simpl read_digits.
    rewrite delimited_no_digit by assumption. simpl.
    rewrite delimited_no_fraction by assumption. reflexivity.
  - destruct (uint_chars_head (Pos.to_uint p)) as (c & tl & E & Hd & _);
      [apply DecimalPos.Unsigned.to_uint_nonnil|].
    assert (Hm : (code c =? 45)%N = false).
    { unfold is_digit in Hd. apply andb_true_iff in Hd as [H1 H2].
      apply N.leb_le in H1, H2. apply N.eqb_neq. lia. }
    transitivity (parse_digits false (uint_chars (Pos.to_uint p) ++ r)).
    + rewrite E. simpl. now rewrite Hm.
    + apply (parse_digits_uint false); [lia | assumption].
  - simpl. apply (parse_digits_uint true); [lia | assumption].
Qed.

Lemma parse_quote_char (c : ascii) (s : list ascii) :
  parse_string_body (quote_char c ++ s)
  = '(cs, r) ← parse_string_body s; POk (c :: cs, r).
Proof.
  destruct c as [[] [] [] [] [] [] [] []]; reflexivity.
Qed.

Lemma parse_quoted (cs r : list ascii) :
  parse_string_body (flat_map quote_char cs ++ dq :: r) = POk (cs, r).
Proof.
  induction cs as [|c cs IH]; simpl flat_map.
  - reflexivity.
  - rewrite <- app_assoc, parse_quote_char, IH. reflexivity.
Qed.

Lemma parse_quote_string (k : string) (r : list ascii) :
  exists tl, quote_string k ++ r = dq :: tl
             /\ parse_string_body tl = POk (chars k, r).
Proof.
  unfold quote_string. eexists. split.
  - rewrite <- app_comm_cons, <- app_assoc. reflexivity.
  - apply parse_quoted.
Qed.

(** ** Property order *)

Lemma has_key_existsb (k : string) (o : list (string * value)) :
  has_key k o = existsb (String.eqb k) (map fst o).
Proof.
  induction o as [|[k' v'] o IH]; simpl; [reflexivity | now rewrite IH].
Qed.

Lemma keys_distinct_fresh (ks1 ks2 : list string) (k : string) :
  keys_distinct (ks1 ++ k :: ks2) = true -> existsb (String.eqb k) ks1 = false.
Proof.
  induction ks1 as [|k1 ks1 IH]; simpl; [reflexivity|].
  intros H. apply andb_true_iff in H as [Hk Hd].
  rewrite (IH Hd), orb_false_r.
  apply negb_true_iff in Hk. rewrite existsb_app in Hk.
  apply orb_false_iff in Hk as [_ Hk]. simpl in Hk.
  apply orb_false_iff in Hk as [Hk _].
  now rewrite String.eqb_sym.
Qed.

Lemma keys_ordered_prefix (ks1 ks2 : list string) :
  keys_ordered (ks1 ++ ks2) = true -> keys_ordered ks1 = true.
Proof.
  induction ks1 as [|k ks1 IH]; simpl; [reflexivity|].
  intros H. apply andb_true_iff in H as [Hh Ht].
  rewrite (IH Ht), andb_true_r.
  destruct (array_index k); rewrite forallb_app in Hh;
    now apply andb_true_iff in Hh as [Hh _].
Qed.

Lemma keys_ordered_last (ks : list string) (k : string) (n : N) :
  keys_ordered (ks ++ [k]) = true -> array_index k = Some n ->
  forallb (index_below n) ks = true.
Proof.
  intros H Hk. induction ks as [|k' ks IH]; simpl in *; [reflexivity|].
  apply andb_true_iff in H as [Hh Ht].
  rewrite (IH Ht), andb_true_r. unfold index_below.
  destruct (array_index k') as [n'|]; rewrite forallb_app in Hh;
    apply andb_true_iff in Hh as [_ Hh]; simpl in Hh;
    rewrite andb_true_r in Hh.
  - unfold index_before in Hh. now rewrite Hk in Hh.
  - unfold not_index in Hh. now rewrite Hk in Hh.
Qed.

Lemma insert_index_last (n : N) (k : string) (v : value) (o : list (string * value)) :
  forallb (index_below n) (map fst o) = true ->
  insert_index n k v o = o ++ [(k, v)].
Proof.
  induction o as [|[k' v'] o IH]; simpl; [reflexivity|].
  intros H. apply andb_true_iff in H as [Hh Ht]. unfold index_below in Hh.
  destruct (array_index k') as [n'|]; [|discriminate].
  apply N.ltb_lt in Hh.
  destruct (N.ltb_spec n n'); [lia|]. now rewrite IH.
Qed.

Lemma define_property_append (o : list (string * value)) (k : string) (v : value) :
  keys_ordered (map fst o ++ [k]) = true ->
  keys_distinct (map fst o ++ [k]) = true ->
  define_property o (k, v) = o ++ [(k, v)].
Proof.
  intros Ho Hd. unfold define_property.
  rewrite has_key_existsb, (keys_distinct_fresh _ _ _ Hd).
  destruct (array_index k) as [n|] eqn:Hk; [|reflexivity].
  apply insert_index_last. eapply keys_ordered_last; eauto.
Qed.

Lemma keys_distinct_prefix (ks1 ks2 : list string) :
  keys_distinct (ks1 ++ ks2) = true -> keys_distinct ks1 = true.
Proof.
  induction ks1 as [|k ks1 IH]; simpl; [reflexivity|].
  intros H. apply andb_true_iff in H as [Hh Ht].
  rewrite (IH Ht), andb_true_r.
  apply negb_true_iff in Hh. rewrite existsb_app in Hh.
  apply orb_false_iff in Hh as [Hh _]. now rewrite Hh.
Qed.

Lemma fold_define_property (ps acc : list (string * value)) :
  keys_ordered (map fst (acc ++ ps)) = true ->
  keys_distinct (map fst (acc ++ ps)) = true ->
  fold_left define_property ps acc = acc ++ ps.
Proof.
  revert acc. induction ps as [|[k v] ps IH]; intros acc Ho Hd; cbn [fold_left].
  - now rewrite app_nil_r.
  - assert (E : acc ++ (k, v) :: ps = (acc ++ [(k, v)]) ++ ps)
      by now rewrite <- app_assoc.
    rewrite E in Ho, Hd. rewrite E.
    rewrite define_property_append.
    + now apply IH.
    + rewrite map_app in Ho. apply keys_ordered_prefix in Ho.
      now rewrite map_app in Ho.
    + rewrite map_app in Hd. apply keys_distinct_prefix in Hd.
      now rewrite map_app in Hd.
Qed.

(** ** One step of the parser on each kind of token *)

Lemma parse_value_number (f : nat) (c : ascii) (tl : list ascii) :
  is_ws c = false -> (is_digit c || (code c =? 45)%N) = true ->
  parse_value (S f) (c :: tl) = parse_number (c :: tl).
Proof. intros Hw Hd. simpl. now rewrite Hw, Hd. Qed.

Lemma parse_value_string (f : nat) (tl : list ascii) :
  parse_value (S f) (dq :: tl)
  = '(cs, r) ← parse_string_body tl; POk (VStr (text cs), r).
Proof. reflexivity. Qed.

Lemma parse_value_array (f : nat) (s : list ascii) :
  parse_value (S f) ("["%char :: s)
  = match skip_ws s with
    | [] => PSyntaxError
    | c :: r =>
        if (code c =? 93)%N then POk (VArr [], r)
        else '(l, r') ← parse_elements f s; POk (VArr l, r')
    end.
Proof. reflexivity. Qed.

Lemma parse_value_object (f : nat) (s : list ascii) :
  parse_value (S f) ("{"%char :: s)
  = match skip_ws s with
    | [] => PSyntaxError
    | c :: r =>
        if (code c =? 125)%N then POk (VObj [], r)
        else '(ms, r') ← parse_members f s;
             POk (VObj (fold_left define_property ms []), r')
    end.
Proof. reflexivity. Qed.

Lemma parse_elements_step (f : nat) (s : list ascii) :
  parse_elements (S f) s
  = '(v, r) ← parse_value f s;
    match skip_ws r with
    | [] => PSyntaxError
    | c :: r' =>
        if (code c =? 44)%N then
          '(l, r'') ← parse_elements f r'; POk (v :: l, r'')
        else if (code c =? 93)%N then POk ([v], r')
        else PSyntaxError
    end.
Proof. reflexivity. Qed.

Lemma parse_members_step (f : nat) (tl : list ascii) :
  parse_members (S f) (dq :: tl)
  = '(k, r1) ← parse_string_body tl;
    match skip_ws r1 with
    | [] => PSyntaxError
    | c1 :: r2 =>
        if negb (code c1 =? 58)%N then PSyntaxError
        else
          '(v, r3) ← parse_value f r2;
          match skip_ws r3 with
          | [] => PSyntaxError
          | c3 :: r4 =>
              if (code c3 =? 44)%N then
                '(ms, r5) ← parse_members f r4; POk ((text k, v) :: ms, r5)
              else if (code c3 =? 125)%N then POk ([(text k, v)], r4)
              else PSyntaxError
          end
    end.
Proof. reflexivity. Qed.

Lemma comma_join_cons (p q : list ascii) (rest : list (list ascii)) :
  comma_join (p :: q :: rest) = p ++ ","%char :: comma_join (q :: rest).
Proof. reflexivity. Qed.

(** A printed value starts with a character that is neither white space
    nor a closing bracket. *)
Lemma stringify_head (v : value) :
  exists c tl, stringify_chars v = c :: tl
               /\ is_ws c = false /\ (code c =? 93)%N = false.
Proof.
  destruct v as [|[]|n|s|l|ps]; try (eexists _, _; repeat split; reflexivity).
  destruct (number_chars_head n) as (c & tl & E & Hd & Hw).
  exists c, tl. repeat split; try assumption.
  apply orb_true_iff in Hd as [Hd | Hd].
  - unfold is_digit in Hd. apply andb_true_iff in Hd as [H1 H2].
    apply N.leb_le in H1, H2. apply N.eqb_neq. lia.
  - apply N.eqb_eq in Hd. apply N.eqb_neq. lia.
Qed.

(** ** Arrays, objects and the round trip *)

Lemma parse_elements_printed (l : list value) :
  Forall reads_back l -> forallb wf_value l = true -> l <> [] ->
  forall (fuel : nat) (r : list ascii),
    list_sum (map (fun x => S (vsize x)) l) <= fuel ->
    parse_elements fuel (comma_join (map stringify_chars l) ++ "]"%char :: r)
    = POk (l, r).
Proof.
  induction 1 as [|x l Hx Hl IH]; [congruence|].
  intros Hwf _ fuel r Hfuel. cbn [forallb] in Hwf.
  apply andb_true_iff in Hwf as [Hwx Hwl].
  cbn [map list_sum] in Hfuel.
  destruct fuel as [|f]; [simpl in Hfuel; lia|].
  rewrite parse_elements_step.
  destruct l as [|y l'].
  - cbn [map comma_join].
    rewrite (Hx Hwx f ("]"%char :: r)) by (simpl in *; first [lia | reflexivity]).
    reflexivity.
  - cbn [map]. rewrite comma_join_cons, <- app_assoc, <- app_comm_cons.
    rewrite (Hx Hwx f) by (simpl in *; first [lia | reflexivity]).
    cbn [mbind presult_bind]. rewrite skip_ws_keep by reflexivity.
    change (code "," =? 44)%N with true. cbv iota.
    change (stringify_chars y :: map stringify_chars l')
      with (map stringify_chars (y :: l')).
    rewrite IH; [reflexivity | assumption | congruence |].
    simpl in *. lia.
Qed.

Lemma parse_members_printed (ps : list (string * value)) :
  Forall (fun kv => reads_back (snd kv)) ps ->
  forallb (fun kv => wf_value (snd kv)) ps = true -> ps <> [] ->
  forall (fuel : nat) (r : list ascii),
    list_sum (map (fun kv => S (vsize (snd kv))) ps) <= fuel ->
    parse_members fuel (comma_join (map member_chars ps) ++ "}"%char :: r)
    = POk (ps, r).
Proof.
  induction 1 as [|[k x] ps Hx Hl IH]; [congruence|].
  intros Hwf _ fuel r Hfuel. cbn [forallb snd] in Hwf.
  apply andb_true_iff in Hwf as [Hwx Hwl].
  cbn [map list_sum snd] in Hfuel. cbn [snd] in Hx.
  destruct fuel as [|f]; [simpl in Hfuel; lia|].
  destruct ps as [|kv ps'].
  - cbn [map comma_join]. unfold member_chars at 1. cbn [fst snd].
    rewrite <- app_assoc, <- app_comm_cons.
    destruct (parse_quote_string k
                (":"%char :: stringify_chars x ++ "}"%char :: r))
      as (tl & -> & Hk).
    rewrite parse_members_step, Hk. cbn [mbind presult_bind].
    rewrite skip_ws_keep by reflexivity.
    change (negb (code ":" =? 58)%N) with false. cbv iota.
    rewrite (Hx Hwx f ("}"%char :: r)) by (simpl in *; first [lia | reflexivity]).
    cbn [mbind presult_bind]. rewrite skip_ws_keep by reflexivity.
    change (code "}" =? 44)%N with false. change (code "}" =? 125)%N with true.
    cbv iota. now rewrite text_chars.
  - cbn [map]. rewrite comma_join_cons, <- app_assoc, <- app_comm_cons.
    unfold member_chars at 1. cbn [fst snd].
    rewrite <- app_assoc, <- app_comm_cons.
    match goal with
    | |- parse_members _ (quote_string k ++ ?rest) = _ =>
        destruct (parse_quote_string k rest) as (tl & -> & Hk)
    end.
    rewrite parse_members_step, Hk. cbn [mbind presult_bind].
    rewrite skip_ws_keep by reflexivity.
    change (negb (code ":" =? 58)%N) with false. cbv iota.
    rewrite (Hx Hwx f) by (simpl in *; first [lia | reflexivity]).
    cbn [mbind presult_bind]. rewrite skip_ws_keep by reflexivity.
    change (code "," =? 44)%N with true. cbv iota.
    change (member_chars kv :: map member_chars ps')
      with (map member_chars (kv :: ps')).
    rewrite IH; [cbn [mbind presult_bind]; now rewrite text_chars
                | assumption | congruence |].
    simpl in *. lia.
Qed.

Lemma comma_join_head (p : list ascii) (parts : list (list ascii)) :
  exists t, comma_join (p :: parts) = p ++ t.
Proof.
  destruct parts as [|q parts].
  - exists []. simpl. now rewrite app_nil_r.
  - eexists. apply comma_join_cons.
Qed.

Lemma skip_ws_joined (p : list ascii) (parts : list (list ascii))
      (c : ascii) (tl rest : list ascii) :
  p = c :: tl -> is_ws c = false ->
  exists tl', skip_ws (comma_join (p :: parts) ++ rest) = c :: tl'.
Proof.
  intros -> Hw. destruct (comma_join_head (c :: tl) parts) as [t ->].
  rewrite <- !app_comm_cons. rewrite skip_ws_keep by assumption. eauto.
Qed.

Lemma member_chars_head (kv : string * value) :
  exists tl, member_chars kv = dq :: tl.
Proof. unfold member_chars, quote_string. rewrite <- !app_comm_cons. eauto. Qed.

Lemma reads_back_all (v : value) : reads_back v.
Proof.
  induction v as [|b|n|s|l IH|ps IH] using value_nested_ind;
    intros Hwf fuel r Hfuel Hr;
    (destruct fuel as [|f]; [simpl in Hfuel; lia|]).
  - reflexivity.
  - destruct b; reflexivity.
  - destruct (number_chars_head n) as (c & tl & E & Hd & Hw).
    cbn [stringify_chars]. rewrite E, <- app_comm_cons.
    rewrite parse_value_number by assumption.
    rewrite app_comm_cons, <- E. now apply parse_number_chars.
  - cbn [stringify_chars].
    destruct (parse_quote_string s r) as (tl & -> & Hs).
    rewrite parse_value_string, Hs. cbn [mbind presult_bind].
    now rewrite text_chars.
  - cbn [stringify_chars wf_value vsize] in *.
    rewrite <- app_comm_cons, <- app_assoc, <- app_comm_cons. cbn [app].
    rewrite parse_value_array.
    destruct l as [|x l']; [reflexivity|].
    destruct (stringify_head x) as (c & tl & E & Hw & Hc).
    destruct (skip_ws_joined _ (map stringify_chars l') c tl ("]"%char :: r) E Hw)
      as [tl' Hsk].
    change (stringify_chars x :: map stringify_chars l')
      with (map stringify_chars (x :: l')) in Hsk.
    rewrite Hsk, Hc.
    rewrite parse_elements_printed;
      [reflexivity | assumption | assumption | congruence | lia].
  - cbn [stringify_chars wf_value vsize] in *.
    apply andb_true_iff in Hwf as [Hwf Hall].
    apply andb_true_iff in Hwf as [Hord Hdis].
    rewrite <- app_comm_cons, <- app_assoc, <- app_comm_cons. cbn [app].
    rewrite parse_value_object.
    destruct ps as [|kv ps']; [reflexivity|].
    change (fun kv0 : string * value =>
              quote_string (fst kv0) ++ ":"%char :: stringify_chars (snd kv0))
      with member_chars.
    destruct (member_chars_head kv) as [tl E].
    destruct (skip_ws_joined _ (map member_chars ps') dq tl ("}"%char :: r) E eq_refl)
      as [tl' Hsk].
    change (member_chars kv :: map member_chars ps')
      with (map member_chars (kv :: ps')) in Hsk.
    rewrite Hsk.
    change (code dq =? 125)%N with false. cbv iota.
    rewrite parse_members_printed; [| assumption | assumption | congruence | lia].
    cbn [mbind presult_bind].
    rewrite fold_define_property by assumption. reflexivity.
Qed.

Lemma comma_join_length (f : value -> nat) (g : value -> list ascii) (l : list value) :
  Forall (fun x => f x <= length (g x)) l ->
  list_sum (map (fun x => S (f x)) l) <= S (length (comma_join (map g l))).
Proof.
  induction 1 as [|x l Hx Hl IH]; [simpl; lia|].
  destruct l as [|y l'].
  - simpl. lia.
  - cbn [map] in *. rewrite comma_join_cons, length_app.
    cbn [list_sum fold_right length] in *. lia.
Qed.

Lemma members_length (ps : list (string * value)) :
  Forall (fun kv => vsize (snd kv) <= length (stringify_chars (snd kv))) ps ->
  list_sum (map (fun kv => S (vsize (snd kv))) ps)
  <= S (length (comma_join (map member_chars ps))).
Proof.
  induction 1 as [|[k x] ps Hx Hl IH]; [simpl; lia|].
  assert (Hm : vsize x <= length (member_chars (k, x))).
  { unfold member_chars. rewrite length_app. simpl in *. lia. }
  destruct ps as [|kv ps'].
  - simpl in *. lia.
  - cbn [map] in *. rewrite comma_join_cons, length_app.
    cbn [list_sum fold_right length snd] in *. lia.
Qed.

Lemma vsize_le_length (v : value) : vsize v <= length (stringify_chars v).
Proof.
  induction v as [|b|n|s|l IH|ps IH] using value_nested_ind.
  - simpl. lia.
  - destruct b; simpl; lia.
  - destruct (number_chars_head n) as (c & tl & E & _).
    cbn [stringify_chars vsize]. rewrite E. simpl. lia.
  - simpl. lia.
  - cbn [stringify_chars vsize]. cbn [length]. rewrite length_app.
    pose proof (comma_join_length vsize stringify_chars l IH).
    cbn [length]. lia.
  - cbn [stringify_chars vsize]. cbn [length]. rewrite length_app.
    pose proof (members_length ps IH) as H. unfold member_chars in H.
    cbn [length]. lia.
Qed.

(** [JSON.parse (JSON.stringify v)] is [v] on the values of the model. *)
Lemma JSON_parse_stringify (v : value) :
  wf_value v = true -> JSON_parse (JSON_stringify v) = POk v.
Proof.
  intros Hwf. unfold JSON_parse, JSON_stringify. rewrite chars_text.
  rewrite <- (app_nil_r (stringify_chars v)) at 2.
  rewrite (reads_back_all v Hwf); [reflexivity | | reflexivity].
  pose proof (vsize_le_length v). lia.
Qed.

(** The text written by [JSON.stringify] is never the empty string. *)
Lemma JSON_stringify_truthy (v : value) :
  truthy_item (Some (JSON_stringify v)) = true.
Proof.
  unfold truthy_item, JSON_stringify.
  destruct (stringify_head v) as (c & tl & -> & _). reflexivity.
Qed.

(** ** The recursion bound of [JSON_parse] is never reached *)

Lemma skip_ws_length (s : list ascii) : length (skip_ws s) <= length s.
Proof.
  induction s as [|c s IH]; simpl; [lia|].
  destruct (is_ws c); simpl; lia.
Qed.

Lemma read_digits_length (s : list ascii) (u : uint) (r : list ascii) :
  read_digits s = (u, r) ->
  length r <= length s /\ (u <> Nil -> length r < length s).
Proof.
  revert u r. induction s as [|c s IH]; intros u r; simpl.
  - intros [= <- <-]. split; [simpl; lia | congruence].
  - destruct (digit_of c) as [d|].
    + destruct (read_digits s) as [u' r'] eqn:E. intros [= <- <-].
      destruct (IH u' r' eq_refl) as [Hle _]. simpl. split; lia.
    + intros [= <- <-]. split; [simpl; lia | congruence].
Qed.

Lemma parse_digits_progress (neg : bool) (s : list ascii)
      (v : value) (r : list ascii) :
  parse_digits neg s = POk (v, r) -> length r < length s.
Proof.
  unfold parse_digits. destruct (read_digits s) as [u r'] eqn:E.
  destruct (canonical u) eqn:Hc; cbn; [|discriminate].
  destruct (fraction_or_exponent r'); [discriminate|].
  destruct (safe_max <? Z.of_uint u)%Z; [discriminate|].
  destruct (neg && (Z.of_uint u =? 0)%Z); [discriminate|].
  intros [= _ <-]. apply (read_digits_length _ _ _ E).
  intros ->. discriminate Hc.
Qed.

Lemma parse_number_progress (s : list ascii) (v : value) (r : list ascii) :
  parse_number s = POk (v, r) -> length r < length s.
Proof.
  unfold parse_number. destruct s as [|c s]; [discriminate|].
  destruct (code c =? 45)%N; intros H; apply parse_digits_progress in H;
    simpl in *; lia.
Qed.

Lemma parse_string_body_progress (n : nat) :
  forall (s cs r : list ascii),
    length s <= n -> parse_string_body s = POk (cs, r) -> length r < length s.
Proof.
  induction n as [|n IH]; intros s cs r Hn.
  - destruct s; [discriminate | simpl in Hn; lia].
  - destruct s as [|c s]; [discriminate|]. cbn [parse_string_body].
    simpl in Hn.
    destruct (code c =? 34)%N; [intros [= _ <-]; simpl; lia|].
    destruct (code c =? 92)%N.
    + destruct s as [|e s]; [discriminate|].
      destruct (code e =? 117)%N.
      * destruct s as [|h1 [|h2 [|h3 [|h4 s]]]]; try discriminate.
        destruct (hex4 h1 h2 h3 h4) as [k|]; [|discriminate].
        destruct (k <? 256)%N; [|discriminate].
        destruct (parse_string_body s) as [[cs' r']| | |] eqn:E; try discriminate.
        cbn. intros [= _ <-]. apply IH in E; simpl in *; lia.
      * destruct (simple_escape e); [|discriminate].
        destruct (parse_string_body s) as [[cs' r']| | |] eqn:E; try discriminate.
        cbn. intros [= _ <-]. apply IH in E; simpl in *; lia.
    + destruct (is_control c); [discriminate|].
      destruct (parse_string_body s) as [[cs' r']| | |] eqn:E; try discriminate.
      cbn. intros [= _ <-]. apply IH in E; simpl in *; lia.
Qed.

Lemma parse_string_progress (s cs r : list ascii) :
  parse_string_body s = POk (cs, r) -> length r < length s.
Proof. apply (parse_string_body_progress (length s)). lia. Qed.

Lemma strip_prefix_length (p s r : list ascii) :
  strip_prefix p s = Some r -> length r + length p = length s.
Proof.
  revert s. induction p as [|a p IH]; intros s; simpl.
  - intros [= <-]. lia.
  - destruct s as [|b s]; [discriminate|].
    destruct (Ascii.eqb a b); [|discriminate].
    intros H. apply IH in H. simpl. lia.
Qed.

Lemma parse_literal_progress (lit : string) (x v : value) (s r : list ascii) :
  lit <> EmptyString ->
  parse_literal lit x s = POk (v, r) -> length r < length s.
Proof.
  unfold parse_literal. intros Hl.
  destruct (strip_prefix (chars lit) s) as [r'|] eqn:E; [|discriminate].
  intros [= _ <-]. apply strip_prefix_length in E.
  destruct lit; [congruence|]. simpl in E. lia.
Qed.

Lemma parse_progress (f : nat) :
  (forall s v r, parse_value f s = POk (v, r) -> length r < length s)
  /\ (forall s l r, parse_elements f s = POk (l, r) -> length r < length s)
  /\ (forall s ms r, parse_members f s = POk (ms, r) -> length r < length s).
Proof.
  induction f as [|f (IHv & IHe & IHm)]; [repeat split; discriminate|].
  split; [|split].
  - intros s v r. cbn [parse_value].
    pose proof (skip_ws_length s) as Hs.
    destruct (skip_ws s) as [|c r0]; [discriminate|]. simpl in Hs.
    destruct (is_digit c || (code c =? 45)%N).
    { intros H. apply parse_number_progress in H. simpl in H. lia. }
    destruct (code c =? 34)%N.
    { unfold mbind, presult_bind.
      destruct (parse_string_body r0) as [[cs r']| | |] eqn:E; try discriminate.
      intros [= _ <-]. apply parse_string_progress in E. lia. }
    destruct (code c =? 91)%N.
    { pose proof (skip_ws_length r0) as Hr.
      destruct (skip_ws r0) as [|c' r']; [discriminate|]. simpl in Hr.
      destruct (code c' =? 93)%N; [intros [= _ <-]; lia|].
      unfold mbind, presult_bind.
      destruct (parse_elements f r0) as [[l r'']| | |] eqn:E; try discriminate.
      intros [= _ <-]. apply IHe in E. lia. }
    destruct (code c =? 123)%N.
    { pose proof (skip_ws_length r0) as Hr.
      destruct (skip_ws r0) as [|c' r']; [discriminate|]. simpl in Hr.
      destruct (code c' =? 125)%N; [intros [= _ <-]; lia|].
      unfold mbind, presult_bind.
      destruct (parse_members f r0) as [[ms r'']| | |] eqn:E; try discriminate.
      intros [= _ <-]. apply IHm in E. lia. }
    destruct (code c =? 110)%N.
    { intros H. apply parse_literal_progress in H; [simpl in H; lia | discriminate]. }
    destruct (code c =? 116)%N.
    { intros H. apply parse_literal_progress in H; [simpl in H; lia | discriminate]. }
    destruct (code c =? 102)%N; [|discriminate].
    intros H. apply parse_literal_progress in H; [simpl in H; lia | discriminate].
  - intros s l r. cbn [parse_elements]. unfold mbind, presult_bind.
    destruct (parse_value f s) as [[v r0]| | |] eqn:E; try discriminate.
    apply IHv in E. pose proof (skip_ws_length r0) as Hr.
    destruct (skip_ws r0) as [|c r']; [discriminate|]. simpl in Hr.
    destruct (code c =? 44)%N.
    { destruct (parse_elements f r') as [[l' r'']| | |] eqn:E'; try discriminate.
      intros [= _ <-]. apply IHe in E'. lia. }
    destruct (code c =? 93)%N; [|discriminate].
    intros [= _ <-]. lia.
  - intros s ms r. cbn [parse_members]. unfold mbind, presult_bind.
    pose proof (skip_ws_length s) as Hs.
    destruct (skip_ws s) as [|q r0]; [discriminate|]. simpl in Hs.
    destruct (negb (code q =? 34)%N); [discriminate|].
    destruct (parse_string_body r0) as [[k r1]| | |] eqn:Ek; try discriminate.
    apply parse_string_progress in Ek.
    pose proof (skip_ws_length r1) as Hr1.
    destruct (skip_ws r1) as [|c1 r2]; [discriminate|]. simpl in Hr1.
    destruct (negb (code c1 =? 58)%N); [discriminate|].
    destruct (parse_value f r2) as [[v r3]| | |] eqn:Ev; try discriminate.
    apply IHv in Ev. pose proof (skip_ws_length r3) as Hr3.
    destruct (skip_ws r3) as [|c3 r4]; [discriminate|]. simpl in Hr3.
    destruct (code c3 =? 44)%N.
    { destruct (parse_members f r4) as [[ms' r5]| | |] eqn:Em; try discriminate.
      intros [= _ <-]. apply IHm in Em. lia. }
    destruct (code c3 =? 125)%N; [|discriminate].
    intros [= _ <-]. lia.
Qed.

Lemma parse_digits_fuel (neg : bool) (s : list ascii) :
  parse_digits neg s <> POutOfFuel.
Proof.
  unfold parse_digits. destruct (read_digits s) as [u r].
  destruct (negb (canonical u)); [discriminate|].
  destruct (fraction_or_exponent r); [discriminate|].
  destruct (safe_max <? Z.of_uint u)%Z; [discriminate|].
  destruct (neg && (Z.of_uint u =? 0)%Z); discriminate.
Qed.

Lemma parse_number_fuel (s : list ascii) : parse_number s <> POutOfFuel.
Proof.
  unfold parse_number. destruct s as [|c s]; [discriminate|].
  destruct (code c =? 45)%N; apply parse_digits_fuel.
Qed.

Lemma parse_string_body_fuel (n : nat) :
  forall s : list ascii, length s <= n -> parse_string_body s <> POutOfFuel.
Proof.
  induction n as [|n IH]; intros s Hn.
  - destruct s; [discriminate | simpl in Hn; lia].
  - destruct s as [|c s]; [discriminate|]. cbn [parse_string_body].
    simpl in Hn.
    destruct (code c =? 34)%N; [discriminate|].
    destruct (code c =? 92)%N.
    + destruct s as [|e s]; [discriminate|].
      destruct (code e =? 117)%N.
      * destruct s as [|h1 [|h2 [|h3 [|h4 s]]]]; try discriminate.
        destruct (hex4 h1 h2 h3 h4) as [k|]; [|discriminate].
        destruct (k <? 256)%N; [|discriminate].
        pose proof (IH s) as H. simpl in Hn.
        destruct (parse_string_body s) as [[cs' r']| | |];
          cbn; try discriminate. apply H. lia.
      * destruct (simple_escape e); [|discriminate].
        pose proof (IH s) as H. simpl in Hn.
        destruct (parse_string_body s) as [[cs' r']| | |];
          cbn; try discriminate. apply H. lia.
    + destruct (is_control c); [discriminate|].
      pose proof (IH s) as H.
      destruct (parse_string_body s) as [[cs' r']| | |];
        cbn; try discriminate. apply H. lia.
Qed.

Lemma parse_string_fuel (s : list ascii) : parse_string_body s <> POutOfFuel.
Proof. apply (parse_string_body_fuel (length s)). lia. Qed.

Lemma parse_literal_fuel (lit : string) (x : value) (s : list ascii) :
  parse_literal lit x s <> POutOfFuel.
Proof. unfold parse_literal. destruct (strip_prefix _ _); discriminate. Qed.

Lemma parse_fuel (f : nat) :
  (forall s, 2 * length s < f -> parse_value f s <> POutOfFuel)
  /\ (forall s, 2 * length s + 1 < f -> parse_elements f s <> POutOfFuel)
  /\ (forall s, 2 * length s + 1 < f -> parse_members f s <> POutOfFuel).
Proof.
  induction f as [|f (IHv & IHe & IHm)]; [repeat split; intros s H; lia|].
  destruct (parse_progress f) as (Pv & Pe & Pm).
  split; [|split].
  - intros s Hf. cbn [parse_value].
    pose proof (skip_ws_length s) as Hs.
    destruct (skip_ws s) as [|c r0]; [discriminate|]. simpl in Hs.
    destruct (is_digit c || (code c =? 45)%N); [apply parse_number_fuel|].
    destruct (code c =? 34)%N.
    { unfold mbind, presult_bind. pose proof (parse_string_fuel r0) as H.
      destruct (parse_string_body r0) as [[cs r']| | |];
        first [discriminate | now elim H]. }
    destruct (code c =? 91)%N.
    { destruct (skip_ws r0) as [|c' r']; [discriminate|].
      destruct (code c' =? 93)%N; [discriminate|].
      unfold mbind, presult_bind.
      assert (H : parse_elements f r0 <> POutOfFuel) by (apply IHe; lia).
      destruct (parse_elements f r0) as [[l r'']| | |];
        first [discriminate | now elim H]. }
    destruct (code c =? 123)%N.
    { destruct (skip_ws r0) as [|c' r']; [discriminate|].
      destruct (code c' =? 125)%N; [discriminate|].
      unfold mbind, presult_bind.
      assert (H : parse_members f r0 <> POutOfFuel) by (apply IHm; lia).
      destruct (parse_members f r0) as [[ms r'']| | |];
        first [discriminate | now elim H]. }
    destruct (code c =? 110)%N; [apply parse_literal_fuel|].
    destruct (code c =? 116)%N; [apply parse_literal_fuel|].
    destruct (code c =? 102)%N; [apply parse_literal_fuel | discriminate].
  - intros s Hf. cbn [parse_elements]. unfold mbind, presult_bind.
    assert (H : parse_value f s <> POutOfFuel) by (apply IHv; lia).
    destruct (parse_value f s) as [[v r0]| | |] eqn:E;
      [|discriminate|discriminate|now elim H].
    apply Pv in E. pose proof (skip_ws_length r0) as Hr.
    destruct (skip_ws r0) as [|c r']; [discriminate|]. simpl in Hr.
    destruct (code c =? 44)%N.
    { assert (H' : parse_elements f r' <> POutOfFuel) by (apply IHe; lia).
      destruct (parse_elements f r') as [[l' r'']| | |];
        first [discriminate | now elim H']. }
    destruct (code c =? 93)%N; discriminate.
  - intros s Hf. cbn [parse_members]. unfold mbind, presult_bind.
    pose proof (skip_ws_length s) as Hs.
    destruct (skip_ws s) as [|q r0]; [discriminate|]. simpl in Hs.
    destruct (negb (code q =? 34)%N); [discriminate|].
    pose proof (parse_string_fuel r0) as Hk.
    destruct (parse_string_body r0) as [[k r1]| | |] eqn:Ek;
      [|discriminate|discriminate|now elim Hk].
    apply parse_string_progress in Ek.
    pose proof (skip_ws_length r1) as Hr1.
    destruct (skip_ws r1) as [|c1 r2]; [discriminate|]. simpl in Hr1.
    destruct (negb (code c1 =? 58)%N); [discriminate|].
    assert (H : parse_value f r2 <> POutOfFuel) by (apply IHv; lia).
    destruct (parse_value f r2) as [[v r3]| | |] eqn:Ev;
      [|discriminate|discriminate|now elim H].
    apply Pv in Ev. pose proof (skip_ws_length r3) as Hr3.
    destruct (skip_ws r3) as [|c3 r4]; [discriminate|]. simpl in Hr3.
    destruct (code c3 =? 44)%N.
    { assert (H' : parse_members f r4 <> POutOfFuel) by (apply IHm; lia).
      destruct (parse_members f r4) as [[ms' r5]| | |];
        first [discriminate | now elim H']. }
    destruct (code c3 =? 125)%N; discriminate.
Qed.

(** [JSON_parse] answers every text with a value, a [SyntaxError] or
    [PUnmodelled]: its recursion bound is enough for every input. *)
Lemma JSON_parse_fuel (t : string) : JSON_parse t <> POutOfFuel.
Proof.
  unfold JSON_parse, mbind, presult_bind.
  assert (H : parse_value (S (2 * length (chars t))) (chars t) <> POutOfFuel)
    by (apply (parse_fuel _); lia).
  destruct (parse_value _ _) as [[v r]| | |];
    [destruct (skip_ws r); discriminate | discriminate | discriminate | now elim H].
Qed.

(** ** The JSON functions on sample texts *)

Example stringify_user :
  JSON_stringify (VObj [("id", VNum 1); ("name", VStr "bob")])
  = "{" +:+ quoted "id" +:+ ":1," +:+ quoted "name" +:+ ":" +:+ quoted "bob" +:+ "}".
Proof. vm_compute. reflexivity. Qed.

Example stringify_escapes :
  JSON_stringify (VStr (text [ascii_of_N 10; dq; backslash; ascii_of_N 1; "a"%char]))
  = text (dq :: chars "\n\" ++ dq :: chars "\\\u0001a" ++ [dq]).
Proof. vm_compute. reflexivity. Qed.

Example parse_with_spaces_and_duplicates :
  JSON_parse (" { " +:+ quoted "b" +:+ " : [ true , null ] , " +:+ quoted "2"
              +:+ ":-7, " +:+ quoted "b" +:+ ":false } ")
  = POk (VObj [("2", VNum (-7)); ("b", VBool false)]).
Proof. vm_compute. reflexivity. Qed.

Example parse_escapes :
  JSON_parse (quoted "a\n\u0041\/")
  = POk (VStr (text ["a"%char; ascii_of_N 10; "A"%char; "/"%char])).
Proof. vm_compute. reflexivity. Qed.

Example parse_rejects :
  JSON_parse "01" = PSyntaxError
  /\ JSON_parse "[1,]" = PSyntaxError
  /\ JSON_parse "nul" = PSyntaxError
  /\ JSON_parse "{oops" = PSyntaxError
  /\ JSON_parse "undefined" = PSyntaxError
  /\ JSON_parse EmptyString = PSyntaxError.
Proof. vm_compute. repeat split. Qed.

Example parse_outside_the_model :
  JSON_parse "1.5" = PUnmodelled
  /\ JSON_parse "-0" = PUnmodelled
  /\ JSON_parse "9007199254740992" = PUnmodelled
  /\ JSON_parse (quoted "\u20ac") = PUnmodelled.
Proof. vm_compute. repeat split. Qed.

(** From here on the JSON functions are used through their lemmas. *)
#[global] Arguments JSON_parse : simpl never.
#[global] Arguments JSON_stringify : simpl never.

(** ** The guard *)

Lemma bind_unit_r (m : M unit) (w : World) : (m;; mret tt) w = m w.
Proof.
  unfold mbind, M_bind, mret, M_ret. destruct (m w) as [[] w'|e w'|]; reflexivity.
Qed.

(** Whatever the user is, the guard carries out [guard_decision]. *)
Lemma ProtectedRoute_guard (st : AuthState) (children : component) :
  realises (guard_decision st) (children (provided st))
           (ProtectedRoute children (provided st)).
Proof.
  destruct st as [u l]. unfold guard_decision, ProtectedRoute. cbn.
  destruct l; cbn.
  - eexists. split; [reflexivity|]. split; reflexivity.
  - destruct (truthy u) eqn:Hu; cbn.
    + destruct (children _) as [c|e]; cbn; [|reflexivity].
      eexists. split; [reflexivity|]. split; [reflexivity|].
      intros w. cbn. apply bind_unit_r.
    + eexists. split; [reflexivity|]. split; [reflexivity|].
      intros w. reflexivity.
Qed.

Lemma guard_decision_valid (st : AuthState) :
  valid_user (user st) = true -> guard_decision st = AccessGate st.
Proof.
  destruct st as [u l]. unfold guard_decision, AccessGate. cbn.
  destruct l; [reflexivity|]. destruct u; cbn; congruence.
Qed.

(** C2: [ProtectedRoute] is a function of the session snapshot that shows
    the placeholder while [loading] is true, redirects to [/login] when
    [loading] is false and the user is absent, and renders the wrapped
    children when [loading] is false and a user record is present. *)
Theorem ProtectedRoute_decides (st : AuthState) (children : component) :
  valid_user (user st) = true ->
  realises (AccessGate st) (children (provided st))
           (ProtectedRoute children (provided st))
  /\ (loading st = true -> AccessGate st = ShowPlaceholder)
  /\ (loading st = false -> user st = VNull -> AccessGate st = RedirectTo "/login")
  /\ (loading st = false -> user st <> VNull -> AccessGate st = RenderProtected).
Proof.
  intros Hv. split; [|split; [|split]].
  - rewrite <- guard_decision_valid by assumption. apply ProtectedRoute_guard.
  - unfold AccessGate. now intros ->.
  - unfold AccessGate. now intros -> ->.
  - unfold AccessGate. intros -> Hu. destruct (user st); congruence.
Qed.

Lemma ProtectedRoute_decides_witness :
  let st := {| user := VObj [("id", VNum 1); ("name", VStr "ada")];
               loading := false |} in
  valid_user (user st) = true
  /\ realises RenderProtected (DashboardPage (provided st))
              (ProtectedRoute DashboardPage (provided st)).
Proof.
  split; [reflexivity|].
  apply (ProtectedRoute_decides
           {| user := VObj [("id", VNum 1); ("name", VStr "ada")];
              loading := false |} DashboardPage).
  reflexivity.
Defined.

(** ** While hydration is pending *)

Lemma find_route_cases (matchPath : string -> string -> bool) (pathname : string) :
  Routes matchPath (App_routes) pathname
  = if matchPath "/" pathname then HomePage
    else if matchPath "/login" pathname then LoginPage
    else if matchPath "/dashboard" pathname then ProtectedRoute DashboardPage
    else if matchPath "*" pathname then NotFoundPage
    else fun _ => Rendered (static ENull).
Proof.
  unfold Routes, App_routes. cbn.
  repeat (destruct (matchPath _ pathname); [reflexivity|]). reflexivity.
Qed.

(** C4: whatever the requested path, the stored value and the router's
    matcher, while [loading] is true the guard shows the placeholder and
    its effect leaves the world as it is (no redirect); the page the
    application routes to is never the protected dashboard. *)
Theorem pending_hydration_shows_placeholder
    (matchPath : string -> string -> bool) (u : value)
    (storage : gmap string string) (pathname : string) (children : component) :
  let st := {| user := u; loading := true |} in
  let w := {| auth := st; localStorage := storage; location := pathname |} in
  (exists v, ProtectedRoute children (provided st) = Rendered v
             /\ markup v = ELoading /\ effect v w = Ok tt w)
  /\ (exists nav page, App matchPath w = Rendered (nav, page)
                       /\ (forall who, markup page <> EDashboard who)
                       /\ effect page w = Ok tt w).
Proof.
  intros st w. split.
  - eexists. split; [reflexivity|]. split; reflexivity.
  - unfold App. rewrite find_route_cases. cbn.
    repeat (destruct (matchPath _ pathname));
      (eexists _, _; split; [reflexivity|]; split; [discriminate | reflexivity]).
Qed.

(** ** Consumers outside the provider *)

(** C3, as the specification states it, fails: outside [AuthProvider]
    the hook returns the context's default to its caller and throws
    nothing. *)
Lemma useAuth_outside_provider_returns_default :
  useAuth None = Rendered CtxNull
  /\ ~ (exists e, useAuth None = RenderThrow e).
Proof. split; [reflexivity|]. intros [e H]. discriminate H. Qed.

(** C3, amended: outside [AuthProvider], [useAuth] returns [null], the
    default of [AuthContext], without throwing; every consumer of the
    repository then throws a [TypeError] when it destructures that
    result, before it renders anything. *)
Theorem useAuth_outside_provider :
  useAuth None = Rendered AuthContext
  /\ AuthContext = CtxNull
  /\ HomePage None = RenderThrow TypeError
  /\ LoginPage None = RenderThrow TypeError
  /\ DashboardPage None = RenderThrow TypeError
  /\ Navigation None = RenderThrow TypeError
  /\ (forall children, ProtectedRoute children None = RenderThrow TypeError).
Proof. repeat split. Qed.

(** ** Hydration *)

Lemma AuthProvider_effect_cases (w : World) :
  AuthProvider_effect w
  = if truthy_item (localStorage w !! "user") then
      match JSON_parse (item_text (localStorage w !! "user")) with
      | POk v => Ok tt (hydrated v w)
      | PSyntaxError => Throw SyntaxError w
      | PUnmodelled | POutOfFuel => Unmodelled
      end
    else Ok tt (hydrated (user (auth w)) w).
Proof.
  unfold AuthProvider_effect, localStorage_getItem, JSON_parse_item.
  unfold mbind, M_bind, mret, M_ret.
  destruct (truthy_item _); [|reflexivity].
  destruct (JSON_parse _); reflexivity.
Qed.

(** C1, as the specification states it, fails: with a stored text that
    is not JSON, the effect of [AuthProvider] ends with the
    [SyntaxError] of [JSON.parse], and [loading] is still true. *)
Lemma hydration_corrupt_value_throws :
  let w := boot {[ "user" := "{oops" ]} "/dashboard" in
  AuthProvider_effect w = Throw SyntaxError w
  /\ loading (auth w) = true
  /\ ~ (exists w', AuthProvider_effect w = Ok tt w').
Proof.
  assert (E : AuthProvider_effect (boot {[ "user" := "{oops" ]} "/dashboard")
              = Throw SyntaxError (boot {[ "user" := "{oops" ]} "/dashboard"))
    by (rewrite AuthProvider_effect_cases; vm_compute; reflexivity).
  cbv zeta. split; [exact E | split; [reflexivity|]].
  intros [w' H]. rewrite E in H. discriminate H.
Qed.

(** C1, amended: at startup, when the session key holds nothing or the
    empty string, hydration resolves to an absent user with [loading]
    false and the guard redirects to [/login]; a stored text that
    [JSON.parse] accepts becomes the user as parsed, with no check that
    it is a User; a stored text that [JSON.parse] rejects makes its
    [SyntaxError] leave the effect, with the user absent and [loading]
    still true. *)
Theorem hydration_outcomes (storage : gmap string string) (pathname : string) :
  let w := boot storage pathname in
  (truthy_item (storage !! "user") = false ->
     AuthProvider_effect w = Ok tt (hydrated VNull w)
     /\ guard_decision (auth (hydrated VNull w)) = RedirectTo "/login")
  /\ (forall t v,
        storage !! "user" = Some t -> t <> EmptyString -> JSON_parse t = POk v ->
        AuthProvider_effect w = Ok tt (hydrated v w))
  /\ (forall t,
        storage !! "user" = Some t -> t <> EmptyString -> JSON_parse t = PSyntaxError ->
        AuthProvider_effect w = Throw SyntaxError w
        /\ user (auth w) = VNull /\ loading (auth w) = true).
Proof.
  intros w. rewrite AuthProvider_effect_cases. cbn.
  split; [|split].
  - intros ->. split; reflexivity.
  - intros t v -> Ht Hp. cbn. apply String.eqb_neq in Ht. rewrite Ht. cbn.
    now rewrite Hp.
  - intros t -> Ht Hp. cbn. apply String.eqb_neq in Ht. rewrite Ht. cbn.
    now rewrite Hp.
Qed.

Lemma hydration_outcomes_witness :
  let absent : gmap string string := ∅ in
  let stored : gmap string string := {[ "user" := "[1,2]" ]} in
  let broken : gmap string string := {[ "user" := "{oops" ]} in
  (truthy_item (absent !! "user") = false
   /\ AuthProvider_effect (boot absent "/") = Ok tt (hydrated VNull (boot absent "/")))
  /\ (stored !! "user" = Some "[1,2]"
      /\ "[1,2]" <> EmptyString
      /\ JSON_parse "[1,2]" = POk (VArr [VNum 1; VNum 2])
      /\ AuthProvider_effect (boot stored "/")
         = Ok tt (hydrated (VArr [VNum 1; VNum 2]) (boot stored "/")))
  /\ (broken !! "user" = Some "{oops"
      /\ "{oops" <> EmptyString
      /\ JSON_parse "{oops" = PSyntaxError
      /\ AuthProvider_effect (boot broken "/") = Throw SyntaxError (boot broken "/")).
Proof.
  cbv zeta.
  assert (H0 : truthy_item ((∅ : gmap string string) !! "user") = false)
    by (vm_compute; reflexivity).
  assert (H1 : ({[ "user" := "[1,2]" ]} : gmap string string) !! "user" = Some "[1,2]")
    by (vm_compute; reflexivity).
  assert (H2 : "[1,2]" <> EmptyString) by discriminate.
  assert (H3 : JSON_parse "[1,2]" = POk (VArr [VNum 1; VNum 2]))
    by (vm_compute; reflexivity).
  assert (H4 : ({[ "user" := "{oops" ]} : gmap string string) !! "user" = Some "{oops")
    by (vm_compute; reflexivity).
  assert (H5 : "{oops" <> EmptyString) by discriminate.
  assert (H6 : JSON_parse "{oops" = PSyntaxError) by (vm_compute; reflexivity).
  split; [|split].
  - split; [exact H0|].
    exact (proj1 (proj1 (hydration_outcomes ∅ "/") H0)).
  - split; [exact H1 | split; [exact H2 | split; [exact H3|]]].
    exact (proj1 (proj2 (hydration_outcomes {[ "user" := "[1,2]" ]} "/"))
             "[1,2]" (VArr [VNum 1; VNum 2]) H1 H2 H3).
  - split; [exact H4 | split; [exact H5 | split; [exact H6|]]].
    exact (proj1 (proj2 (proj2 (hydration_outcomes {[ "user" := "{oops" ]} "/"))
                    "{oops" H4 H5 H6)).
Defined.

(** ** [login], [logout] and the storage *)

Lemma login_result (u : value) (w : World) :
  login u w
  = Ok tt {| auth := {| user := u; loading := loading (auth w) |};
             localStorage := <["user" := JSON_stringify u]> (localStorage w);
             location := location w |}.
Proof. reflexivity. Qed.

Lemma logout_result (w : World) :
  logout w
  = Ok tt {| auth := {| user := VNull; loading := loading (auth w) |};
             localStorage := delete "user" (localStorage w);
             location := location w |}.
Proof. reflexivity. Qed.

Lemma bind_ok {A B : Type} (m : M A) (k : A -> M B) (w w' : World) (a : A) :
  m w = Ok a w' -> (m ≫= k) w = k a w'.
Proof. intros H. unfold mbind, M_bind. now rewrite H. Qed.

(** C6: from any state and for any user, [login(u)] followed by
    [logout()] ends with the user absent in memory and no entry under the
    session key in the storage. *)
Theorem login_then_logout (u : value) (w : World) :
  exists w', (login u;; logout) w = Ok tt w'
             /\ user (auth w') = VNull
             /\ localStorage w' !! "user" = None.
Proof.
  eexists. split; [|split].
  - erewrite bind_ok by apply login_result. apply logout_result.
  - reflexivity.
  - cbn. apply lookup_delete_eq.
Qed.

(** C7: [login(u1)] followed by [login(u2)] leaves [u2] as the user in
    memory and the serialization of [u2] under the session key: the
    second call overwrites the first. *)
Theorem login_twice_last_wins (u1 u2 : value) (w : World) :
  exists w', (login u1;; login u2) w = Ok tt w'
             /\ user (auth w') = u2
             /\ localStorage w' !! "user" = Some (JSON_stringify u2)
             /\ login u2 w' = Ok tt w'.
Proof.
  eexists. split; [|split; [|split]].
  - erewrite bind_ok by apply login_result. apply login_result.
  - reflexivity.
  - cbn. apply lookup_insert_eq.
  - rewrite login_result. cbn. now rewrite !insert_insert_eq.
Qed.

(** Hydration of a fresh process over the storage [login u] left. *)
Lemma hydrate_after_login (u : value) (w : World) (pathname : string) :
  wf_value u = true ->
  AuthProvider_effect
    (boot (<["user" := JSON_stringify u]> (localStorage w)) pathname)
  = Ok tt (hydrated u
             (boot (<["user" := JSON_stringify u]> (localStorage w)) pathname)).
Proof.
  intros Hwf. rewrite AuthProvider_effect_cases. cbn.
  rewrite lookup_insert_eq, JSON_stringify_truthy. cbn.
  now rewrite JSON_parse_stringify.
Qed.

(** The user the login form builds is read back at the next start,
    whatever name was typed. *)
Lemma handleLogin_then_hydrate (st : AuthState) (username : string)
      (w : World) (pathname : string) :
  let u := VObj [("id", VNum 1); ("name", VStr username)] in
  exists w1,
    LoginPage_handleLogin (AuthProvider_value st) username w = Ok tt w1
    /\ user (auth w1) = u
    /\ location w1 = "/dashboard"
    /\ AuthProvider_effect (boot (localStorage w1) pathname)
       = Ok tt (hydrated u (boot (localStorage w1) pathname)).
Proof.
  intros u. eexists. split; [reflexivity|].
  split; [reflexivity | split; [reflexivity|]].
  cbn. now apply hydrate_after_login.
Qed.

(** The logout button of the dashboard: user absent, entry removed,
    location [/login]. *)
Lemma handleLogout_result (st : AuthState) (w : World) :
  exists w1,
    DashboardPage_handleLogout (AuthProvider_value st) w = Ok tt w1
    /\ user (auth w1) = VNull
    /\ localStorage w1 !! "user" = None
    /\ location w1 = "/login".
Proof.
  eexists. split; [reflexivity|].
  split; [reflexivity | split; [|reflexivity]].
  cbn. apply lookup_delete_eq.
Qed.

(** C9: a user written by [login(u)] is read back by the hydration of
    the next start as a user equal to [u]: the serialization loses
    nothing of a User (a value of the JSON fragment: safe integers, and
    objects that list each key once in property order). *)
Theorem login_then_hydrate_roundtrip (u : value) (w : World) (pathname : string) :
  wf_value u = true ->
  exists w1 w2,
    login u w = Ok tt w1
    /\ JSON_parse (JSON_stringify u) = POk u
    /\ AuthProvider_effect (boot (localStorage w1) pathname) = Ok tt w2
    /\ user (auth w2) = u
    /\ loading (auth w2) = false.
Proof.
  intros Hwf. eexists _, _. split; [apply login_result|].
  split; [now apply JSON_parse_stringify|].
  split; [cbn; now apply hydrate_after_login|].
  split; reflexivity.
Qed.

Lemma login_then_hydrate_roundtrip_witness :
  let u := VObj [("id", VNum 1); ("name", VStr "grace")] in
  wf_value u = true
  /\ exists w1 w2,
       login u (boot ∅ "/login") = Ok tt w1
       /\ JSON_parse (JSON_stringify u) = POk u
       /\ AuthProvider_effect (boot (localStorage w1) "/dashboard") = Ok tt w2
       /\ user (auth w2) = u
       /\ loading (auth w2) = false.
Proof.
  cbv zeta.
  assert (H : wf_value (VObj [("id", VNum 1); ("name", VStr "grace")]) = true)
    by (vm_compute; reflexivity).
  split; [exact H|].
  exact (login_then_hydrate_roundtrip
           (VObj [("id", VNum 1); ("name", VStr "grace")])
           (boot ∅ "/login") "/dashboard" H).
Defined.

(** C10: [login] writes the key [user] and no other, [logout] removes
    the key [user] and no other, and hydration leaves the whole storage
    as it found it, whether it ends normally or throws. *)
Theorem storage_frame (k : string) (u : value) (w : World) :
  k <> "user" ->
  (exists w', login u w = Ok tt w'
              /\ localStorage w' = <["user" := JSON_stringify u]> (localStorage w)
              /\ localStorage w' !! k = localStorage w !! k)
  /\ (exists w', logout w = Ok tt w'
                 /\ localStorage w' = delete "user" (localStorage w)
                 /\ localStorage w' !! k = localStorage w !! k)
  /\ (forall w', AuthProvider_effect w = Ok tt w' -> localStorage w' = localStorage w)
  /\ (forall e w', AuthProvider_effect w = Throw e w' -> localStorage w' = localStorage w).
Proof.
  intros Hk. split; [|split; [|split]].
  - eexists. split; [apply login_result|]. split; [reflexivity|].
    cbn. now apply lookup_insert_ne.
  - eexists. split; [apply logout_result|]. split; [reflexivity|].
    cbn. now apply lookup_delete_ne.
  - intros w'. rewrite AuthProvider_effect_cases.
    destruct (truthy_item _); [destruct (JSON_parse _)|];
      intros H; inversion H; reflexivity.
  - intros e w'. rewrite AuthProvider_effect_cases.
    destruct (truthy_item _); [destruct (JSON_parse _)|];
      intros H; inversion H; reflexivity.
Qed.

Lemma storage_frame_witness :
  let w := boot {[ "theme" := "dark" ]} "/" in
  let u := VObj [("id", VNum 1); ("name", VStr "alan")] in
  "theme" <> "user"
  /\ exists w', login u w = Ok tt w'
                /\ localStorage w' = <["user" := JSON_stringify u]> (localStorage w)
                /\ localStorage w' !! "theme" = localStorage w !! "theme".
Proof.
  cbv zeta.
  assert (H : "theme" <> "user") by discriminate.
  split; [exact H|].
  exact (proj1 (storage_frame "theme"
                  (VObj [("id", VNum 1); ("name", VStr "alan")])
                  (boot {[ "theme" := "dark" ]} "/") H)).
Defined.

(** ** The loading flag over the lifetime *)

Lemma handle_keeps_loading (ev : event) (w : World) :
  exists w', handle ev w = Ok tt w' /\ loading (auth w') = loading (auth w).
Proof.
  destruct ev as [u| | |to]; cbn.
  - eexists. split; [apply login_result | reflexivity].
  - eexists. split; [apply logout_result | reflexivity].
  - unfold ProtectedRoute_effect.
    destruct (loading (auth w)) eqn:Hl; [eauto|].
    destruct (truthy (user (auth w))); cbn; eauto.
  - eexists. split; reflexivity.
Qed.

Lemma run_keeps_loading (evs : list event) (w : World) :
  exists w', run evs w = Ok tt w' /\ loading (auth w') = loading (auth w).
Proof.
  revert w. induction evs as [|ev evs IH]; intros w.
  - exists w. split; reflexivity.
  - destruct (handle_keeps_loading ev w) as (w1 & H1 & L1).
    destruct (IH w1) as (w2 & H2 & L2).
    exists w2. split.
    + cbn [run]. erewrite bind_ok by exact H1. exact H2.
    + congruence.
Qed.

(** C5: [loading] is true when the process starts; the hydration that
    resolves sets it to false; after that, no sequence of logins,
    logouts, guard effects and navigations ever makes it true again. *)
Theorem loading_only_during_hydration
    (storage : gmap string string) (pathname : string) (w1 : World) :
  AuthProvider_effect (boot storage pathname) = Ok tt w1 ->
  loading (auth (boot storage pathname)) = true
  /\ loading (auth w1) = false
  /\ forall evs : list event,
       exists w2, run evs w1 = Ok tt w2 /\ loading (auth w2) = false.
Proof.
  intros H. rewrite AuthProvider_effect_cases in H.
  assert (L1 : loading (auth w1) = false).
  { destruct (truthy_item _); [destruct (JSON_parse _)|];
      inversion H; reflexivity. }
  split; [reflexivity | split; [exact L1|]].
  intros evs. destruct (run_keeps_loading evs w1) as (w2 & H2 & L2).
  exists w2. split; [exact H2 | congruence].
Qed.

Lemma loading_only_during_hydration_witness :
  let storage : gmap string string := {[ "user" := "null" ]} in
  let w1 := hydrated VNull (boot storage "/") in
  AuthProvider_effect (boot storage "/") = Ok tt w1
  /\ exists w2,
       run [Login (VStr "eve"); Guard; Logout; Navigate "/dashboard"; Guard] w1
       = Ok tt w2
       /\ loading (auth w2) = false.
Proof.
  cbv zeta.
  assert (H : AuthProvider_effect (boot {[ "user" := "null" ]} "/")
              = Ok tt (hydrated VNull (boot {[ "user" := "null" ]} "/")))
    by (rewrite AuthProvider_effect_cases; vm_compute; reflexivity).
  split; [exact H|].
  exact (proj2 (proj2 (loading_only_during_hydration
                         {[ "user" := "null" ]} "/" _ H))
           [Login (VStr "eve"); Guard; Logout; Navigate "/dashboard"; Guard]).
Defined.

(** ** The route table *)

Section RouteTable.

Variable matchPath : string -> string -> bool.

(** The wildcard pattern matches every pathname. *)
Hypothesis wildcard_matches : forall pathname, matchPath "*" pathname = true.

(** C8: a pathname that matches none of [/], [/login] and [/dashboard]
    is routed to the NotFound page in every auth state, and the
    application shows that page under its navigation bar; the wildcard is
    the last entry of the route table and shadows no declared route: a
    pathname that matches one declared pattern is routed, by the
    application, to that pattern's page. *)
Theorem unmatched_path_renders_NotFound (w : World) :
  (matchPath "/" (location w) = false ->
   matchPath "/login" (location w) = false ->
   matchPath "/dashboard" (location w) = false ->
   Routes matchPath App_routes (location w) (provided (auth w))
   = Rendered (static ENotFound)
   /\ App matchPath w
      = (nav ← Navigation (provided (auth w)); Rendered (nav, static ENotFound)))
  /\ last (map fst App_routes) = Some "*"
  /\ (matchPath "/" (location w) = true ->
      matchPath "/login" (location w) = false ->
      matchPath "/dashboard" (location w) = false ->
      App matchPath w
      = (nav ← Navigation (provided (auth w));
         page ← HomePage (provided (auth w));
         Rendered (nav, page)))
  /\ (matchPath "/" (location w) = false ->
      matchPath "/login" (location w) = true ->
      matchPath "/dashboard" (location w) = false ->
      App matchPath w
      = (nav ← Navigation (provided (auth w));
         page ← LoginPage (provided (auth w));
         Rendered (nav, page)))
  /\ (matchPath "/" (location w) = false ->
      matchPath "/login" (location w) = false ->
      matchPath "/dashboard" (location w) = true ->
      App matchPath w
      = (nav ← Navigation (provided (auth w));
         page ← ProtectedRoute DashboardPage (provided (auth w));
         Rendered (nav, page))).
Proof.
  split; [|split; [reflexivity|]].
  - intros H1 H2 H3. unfold App.
    rewrite find_route_cases, H1, H2, H3, wildcard_matches.
    split; reflexivity.
  - repeat split; intros H1 H2 H3; unfold App;
      rewrite find_route_cases, H1, ?H2, ?H3; reflexivity.
Qed.

End RouteTable.

Lemma unmatched_path_renders_NotFound_witness :
  let lost := hydrated VNull (boot ∅ "/this-does-not-exist") in
  let there := hydrated VNull (boot ∅ "/login") in
  (forall pathname, exact_match "*" pathname = true)
  /\ (exact_match "/" (location lost) = false
      /\ exact_match "/login" (location lost) = false
      /\ exact_match "/dashboard" (location lost) = false
      /\ App exact_match lost
         = (nav ← Navigation (provided (auth lost));
            Rendered (nav, static ENotFound)))
  /\ (exact_match "/" (location there) = false
      /\ exact_match "/login" (location there) = true
      /\ exact_match "/dashboard" (location there) = false
      /\ App exact_match there
         = (nav ← Navigation (provided (auth there));
            page ← LoginPage (provided (auth there));
            Rendered (nav, page))).
Proof.
  cbv zeta.
  assert (H0 : forall pathname, exact_match "*" pathname = true)
    by (intros pathname; reflexivity).
  split; [exact H0 | split].
  - assert (H1 : exact_match "/" "/this-does-not-exist" = false) by reflexivity.
    assert (H2 : exact_match "/login" "/this-does-not-exist" = false) by reflexivity.
    assert (H3 : exact_match "/dashboard" "/this-does-not-exist" = false)
      by reflexivity.
    split; [exact H1 | split; [exact H2 | split; [exact H3|]]].
    exact (proj2 (proj1 (unmatched_path_renders_NotFound exact_match H0
                           (hydrated VNull (boot ∅ "/this-does-not-exist")))
                    H1 H2 H3)).
  - assert (H1 : exact_match "/" "/login" = false) by reflexivity.
    assert (H2 : exact_match "/login" "/login" = true) by reflexivity.
    assert (H3 : exact_match "/dashboard" "/login" = false) by reflexivity.
    split; [exact H1 | split; [exact H2 | split; [exact H3|]]].
    exact (proj1 (proj2 (proj2 (proj2
             (unmatched_path_renders_NotFound exact_match H0
                (hydrated VNull (boot ∅ "/login"))))))
             H1 H2 H3).
Defined.

(** ** Further properties of the session operations *)

(** Of two session operations in a row only the second leaves a trace:
    the world after both is the world after the second alone. *)
Theorem last_session_operation_wins (u1 u2 : value) (w : World) :
  (login u1;; login u2) w = login u2 w
  /\ (login u1;; logout) w = logout w
  /\ (logout;; login u2) w = login u2 w
  /\ (logout;; logout) w = logout w.
Proof.
  repeat split.
  - erewrite bind_ok by apply login_result. rewrite !login_result. cbn.
    now rewrite insert_insert_eq.
  - erewrite bind_ok by apply login_result. rewrite !logout_result. cbn.
    now rewrite delete_insert_eq.
  - erewrite bind_ok by apply logout_result. rewrite !login_result. cbn.
    now rewrite insert_delete_eq.
  - erewrite bind_ok by apply logout_result. rewrite !logout_result. cbn.
    now rewrite delete_delete_eq.
Qed.

Lemma handle_keeps_sync (ev : event) (w : World) :
  in_sync w -> exists w', handle ev w = Ok tt w' /\ in_sync w'.
Proof.
  intros Hs. destruct ev as [u| | |to]; cbn.
  - eexists. split; [apply login_result|]. unfold in_sync. cbn.
    now rewrite lookup_insert_eq.
  - eexists. split; [apply logout_result|]. unfold in_sync. cbn.
    now rewrite lookup_delete_eq.
  - unfold ProtectedRoute_effect.
    destruct (loading (auth w)); [eauto|].
    destruct (truthy (user (auth w))); cbn; eauto.
  - eexists. split; [reflexivity | exact Hs].
Qed.

(** [login] and [logout] each leave the storage mirroring the session,
    from any state; from a mirrored state every sequence of logins,
    logouts, guard effects and navigations ends in a mirrored state. *)
Theorem session_storage_in_sync (w : World) :
  (forall u, exists w', login u w = Ok tt w' /\ in_sync w')
  /\ (exists w', logout w = Ok tt w' /\ in_sync w')
  /\ (in_sync w ->
      forall evs : list event, exists w', run evs w = Ok tt w' /\ in_sync w').
Proof.
  split; [|split].
  - intros u. eexists. split; [apply login_result|]. unfold in_sync. cbn.
    now rewrite lookup_insert_eq.
  - eexists. split; [apply logout_result|]. unfold in_sync. cbn.
    now rewrite lookup_delete_eq.
  - intros Hs evs. revert w Hs. induction evs as [|ev evs IH]; intros w Hs.
    + exists w. split; [reflexivity | exact Hs].
    + destruct (handle_keeps_sync ev w Hs) as (w1 & H1 & S1).
      destruct (IH w1 S1) as (w2 & H2 & S2).
      exists w2. split; [|exact S2].
      cbn [run]. erewrite bind_ok by exact H1. exact H2.
Qed.

Lemma session_storage_in_sync_witness :
  let w := boot ∅ "/" in
  in_sync w
  /\ exists w',
       run [Login (VStr "kay"); Navigate "/dashboard"; Guard; Logout; Guard] w
       = Ok tt w'
       /\ in_sync w'.
Proof.
  cbv zeta.
  assert (H : in_sync (boot ∅ "/")) by (vm_compute; reflexivity).
  split; [exact H|].
  exact (proj2 (proj2 (session_storage_in_sync (boot ∅ "/"))) H
           [Login (VStr "kay"); Navigate "/dashboard"; Guard; Logout; Guard]).
Defined.

(** Hydration that has resolved is a fixed point of the provider's
    effect: running the effect again changes nothing. *)
Theorem AuthProvider_effect_idempotent (w w1 : World) :
  AuthProvider_effect w = Ok tt w1 -> AuthProvider_effect w1 = Ok tt w1.
Proof.
  rewrite !AuthProvider_effect_cases.
  destruct (truthy_item (localStorage w !! "user")) eqn:Ht.
  - destruct (JSON_parse (item_text (localStorage w !! "user"))) as [v| | |] eqn:Hp;
      try discriminate.
    intros [= <-]. cbn. now rewrite Ht, Hp.
  - intros [= <-]. cbn. now rewrite Ht.
Qed.

Lemma AuthProvider_effect_idempotent_witness :
  let w := boot {[ "user" := "[1,2]" ]} "/" in
  let w1 := hydrated (VArr [VNum 1; VNum 2]) w in
  AuthProvider_effect w = Ok tt w1 /\ AuthProvider_effect w1 = Ok tt w1.
Proof.
  cbv zeta.
  assert (H : AuthProvider_effect (boot {[ "user" := "[1,2]" ]} "/")
              = Ok tt (hydrated (VArr [VNum 1; VNum 2])
                         (boot {[ "user" := "[1,2]" ]} "/")))
    by (rewrite AuthProvider_effect_cases; vm_compute; reflexivity).
  split; [exact H|].
  exact (AuthProvider_effect_idempotent _ _ H).
Defined.

(** The effect of the guard never touches the session or the storage;
    it leaves the location alone or sets it to [/login], and it sets it
    only when [loading] is false and the user is falsy. *)
Theorem ProtectedRoute_effect_frame (u : value) (l : bool) (w : World) :
  exists w',
    ProtectedRoute_effect u l w = Ok tt w'
    /\ auth w' = auth w
    /\ localStorage w' = localStorage w
    /\ location w' = (if negb l && negb (truthy u) then "/login" else location w).
Proof.
  unfold ProtectedRoute_effect. destruct l; cbn; [eauto 6|].
  destruct (truthy u); cbn; eauto 6.
Qed.

(** The logout button: the user is absent, the entry is removed, the
    location is [/login], [loading] is untouched, and the next start of
    the application hydrates to a logged-out session. *)
Theorem handleLogout_then_restart (st : AuthState) (w : World) (pathname : string) :
  exists w1,
    DashboardPage_handleLogout (AuthProvider_value st) w = Ok tt w1
    /\ user (auth w1) = VNull
    /\ loading (auth w1) = loading (auth w)
    /\ localStorage w1 = delete "user" (localStorage w)
    /\ location w1 = "/login"
    /\ AuthProvider_effect (boot (localStorage w1) pathname)
       = Ok tt (hydrated VNull (boot (localStorage w1) pathname)).
Proof.
  eexists. split; [reflexivity|].
  repeat (split; [reflexivity|]).
  rewrite AuthProvider_effect_cases. cbn. now rewrite lookup_delete_eq.
Qed.

(** ** The guard and its children *)

(** While [loading] is true or the user is falsy (null, but also 0,
    false or the empty string), the guard renders without rendering its
    children at all, so an error in them cannot surface; once the user is
    truthy and [loading] is false, an error thrown by the children is the
    guard's own. *)
Theorem ProtectedRoute_withholds_children (st : AuthState) (children : component) :
  (loading st = true \/ truthy (user st) = false ->
   exists v, ProtectedRoute children (provided st) = Rendered v
             /\ markup v = (if loading st then ELoading else ENull))
  /\ (loading st = false -> truthy (user st) = true ->
      forall e, children (provided st) = RenderThrow e ->
                ProtectedRoute children (provided st) = RenderThrow e).
Proof.
  destruct st as [u l]. unfold ProtectedRoute. cbn. split.
  - intros [-> | Hu]; [eauto|].
    destruct l; [eauto|]. rewrite Hu. eauto.
  - intros -> -> e ->. reflexivity.
Qed.

Lemma ProtectedRoute_withholds_children_witness :
  let st := {| user := VNum 0; loading := false |} in
  let broken : component := fun _ => RenderThrow TypeError in
  (loading st = true \/ truthy (user st) = false)
  /\ exists v, ProtectedRoute broken (provided st) = Rendered v
               /\ markup v = ENull.
Proof.
  cbv zeta.
  assert (H : loading {| user := VNum 0; loading := false |} = true
              \/ truthy (user {| user := VNum 0; loading := false |}) = false)
    by (right; reflexivity).
  split; [exact H|].
  exact (proj1 (ProtectedRoute_withholds_children
                  {| user := VNum 0; loading := false |}
                  (fun _ => RenderThrow TypeError)) H).
Defined.

(** ** The application as a whole *)

Section Application.

Variable matchPath : string -> string -> bool.

Lemma App_cases (w : World) :
  App matchPath w
  = (page ← Routes matchPath App_routes (location w) (provided (auth w));
     Rendered (static (ENavigation (shown (user (auth w)))), page)).
Proof. reflexivity. Qed.

(** Dashboard markup is on the page only when [loading] is false and the
    user is truthy, and then it shows the user of the session. *)
Theorem dashboard_only_when_authenticated
    (w : World) (nav page : view) (who : option value) :
  App matchPath w = Rendered (nav, page) ->
  markup page = EDashboard who ->
  loading (auth w) = false
  /\ truthy (user (auth w)) = true
  /\ who = Some (user (auth w)).
Proof.
  rewrite App_cases, find_route_cases.
  destruct (auth w) as [u l].
  repeat (destruct (matchPath _ (location w)));
    cbn; try (intros [= <- <-]; cbn; discriminate).
  destruct l; cbn; [intros [= <- <-]; cbn; discriminate|].
  unfold shown.
  destruct (truthy u) eqn:Hu; cbn; intros [= <- <-]; cbn; [|discriminate].
  intros [= <-]. auto.
Qed.

(** A page reached through a public pattern, or through no declared
    pattern, schedules no effect that does anything: committing it
    leaves the world as it is, whatever the auth state. *)
Theorem public_routes_never_redirect (w : World) (nav page : view) :
  App matchPath w = Rendered (nav, page) ->
  matchPath "/" (location w) = true
  \/ matchPath "/login" (location w) = true
  \/ matchPath "/dashboard" (location w) = false ->
  forall w', effect nav w' = Ok tt w' /\ effect page w' = Ok tt w'.
Proof.
  rewrite App_cases, find_route_cases.
  intros H Hpub.
  destruct (matchPath "/" (location w)); cbn in H.
  { injection H as <- <-. intros w'. split; reflexivity. }
  destruct (matchPath "/login" (location w)); cbn in H.
  { injection H as <- <-. intros w'. split; reflexivity. }
  destruct Hpub as [Hp | [Hp | Hp]]; try discriminate Hp.
  rewrite Hp in H.
  destruct (matchPath "*" (location w)); cbn in H;
    injection H as <- <-; intros w'; split; reflexivity.
Qed.

End Application.

Lemma dashboard_only_when_authenticated_witness :
  let u := VObj [("id", VNum 1); ("name", VStr "lin")] in
  let w := hydrated u (boot ∅ "/dashboard") in
  let nav := static (ENavigation (Some u)) in
  let page := {| markup := EDashboard (Some u);
                 effect := mret tt;; ProtectedRoute_effect u false |} in
  App exact_match w = Rendered (nav, page)
  /\ markup page = EDashboard (Some u)
  /\ loading (auth w) = false
  /\ truthy (user (auth w)) = true.
Proof.
  cbv zeta.
  assert (H : App exact_match
                (hydrated (VObj [("id", VNum 1); ("name", VStr "lin")])
                   (boot ∅ "/dashboard"))
              = Rendered
                  (static (ENavigation
                             (Some (VObj [("id", VNum 1); ("name", VStr "lin")]))),
                   {| markup := EDashboard
                                  (Some (VObj [("id", VNum 1); ("name", VStr "lin")]));
                      effect := mret tt;;
                                ProtectedRoute_effect
                                  (VObj [("id", VNum 1); ("name", VStr "lin")]) false |}))
    by reflexivity.
  split; [exact H | split; [reflexivity|]].
  pose proof (dashboard_only_when_authenticated exact_match _ _ _ _ H eq_refl)
    as (Hl & Ht & _).
  split; [exact Hl | exact Ht].
Defined.

Lemma public_routes_never_redirect_witness :
  let w := boot ∅ "/login" in
  App exact_match w = Rendered (static (ENavigation None), static ELogin)
  /\ (exact_match "/" (location w) = true
      \/ exact_match "/login" (location w) = true
      \/ exact_match "/dashboard" (location w) = false)
  /\ effect (static ELogin) w = Ok tt w.
Proof.
  cbv zeta.
  assert (H : App exact_match (boot ∅ "/login")
              = Rendered (static (ENavigation None), static ELogin))
    by reflexivity.
  assert (Hp : exact_match "/" (location (boot ∅ "/login")) = true
               \/ exact_match "/login" (location (boot ∅ "/login")) = true
               \/ exact_match "/dashboard" (location (boot ∅ "/login")) = false)
    by (right; left; reflexivity).
  split; [exact H | split; [exact Hp|]].
  exact (proj2 (public_routes_never_redirect exact_match _ _ _ H Hp
                  (boot ∅ "/login"))).
Defined.

(** ** Journeys through the router *)

Section Journeys.

Variable matchPath : string -> string -> bool.

(** An unauthenticated visit to the protected route: the guard renders
    nothing, its effect moves the location to [/login] and touches
    nothing else; the login page is shown there, and committing it
    changes nothing more. *)
Theorem redirect_settles_on_login (w : World) :
  matchPath "/" "/login" = false ->
  matchPath "/login" "/login" = true ->
  matchPath "/" (location w) = false ->
  matchPath "/login" (location w) = false ->
  matchPath "/dashboard" (location w) = true ->
  loading (auth w) = false ->
  truthy (user (auth w)) = false ->
  exists nav page w1,
    App matchPath w = Rendered (nav, page)
    /\ markup page = ENull
    /\ commit matchPath w = Ok tt w1
    /\ w1 = {| auth := auth w; localStorage := localStorage w; location := "/login" |}
    /\ App matchPath w1 = Rendered (nav, static ELogin)
    /\ commit matchPath w1 = Ok tt w1.
Proof.
  intros L1 L2 H1 H2 H3 Hl Hu.
  destruct w as [[u l] ls loc]. cbn in *. subst l.
  exists (static (ENavigation None)),
         {| markup := ENull; effect := ProtectedRoute_effect u false |},
         {| auth := {| user := u; loading := false |};
            localStorage := ls; location := "/login" |}.
  unfold commit. rewrite !App_cases, !find_route_cases. cbn.
  rewrite H1, H2, H3, L1, L2. cbn. unfold shown. rewrite Hu. cbn.
  repeat split.
Qed.

(** Submitting the login form once hydration has resolved: the typed
    name becomes the user, the location becomes [/dashboard], and the
    page shown there is the dashboard of that user, with no redirect. *)
Theorem handleLogin_reaches_dashboard (st : AuthState) (username : string) (w : World) :
  matchPath "/" "/dashboard" = false ->
  matchPath "/login" "/dashboard" = false ->
  matchPath "/dashboard" "/dashboard" = true ->
  loading (auth w) = false ->
  let u := VObj [("id", VNum 1); ("name", VStr username)] in
  exists w1 page,
    LoginPage_handleLogin (AuthProvider_value st) username w = Ok tt w1
    /\ App matchPath w1 = Rendered (static (ENavigation (Some u)), page)
    /\ markup page = EDashboard (Some u)
    /\ commit matchPath w1 = Ok tt w1.
Proof.
  intros H1 H2 H3 Hl u.
  destruct w as [[u0 l] ls loc]. cbn in Hl. subst l.
  eexists _, _. split; [reflexivity|].
  unfold commit. rewrite !App_cases, !find_route_cases. cbn.
  rewrite H1, H2, H3. cbn. repeat split.
Qed.

(** The Sign Up link of the login page names a pattern that the route
    table does not declare; every other link the application shows names
    a declared pattern. With a matcher under which [/signup] matches no
    declared pattern, following the link shows the NotFound page. *)
Theorem signup_link_is_not_routed (st : AuthState) (w : World) :
  (forall p, matchPath "*" p = true) ->
  matchPath "/" "/signup" = false ->
  matchPath "/login" "/signup" = false ->
  matchPath "/dashboard" "/signup" = false ->
  (exists v, LoginPage (provided st) = Rendered v /\ In "/signup" (links (markup v)))
  /\ ~ In "/signup" (map fst App_routes)
  /\ (forall e target, In target (links e) ->
        target = "/signup" \/ In target (map fst App_routes))
  /\ (exists w1 nav,
        navigate "/signup" w = Ok tt w1
        /\ App matchPath w1 = Rendered (nav, static ENotFound)).
Proof.
  intros Hstar H1 H2 H3. split; [|split; [|split]].
  - eexists. split; [reflexivity|]. cbn. auto.
  - cbn. intros [H | [H | [H | [H | []]]]]; discriminate H.
  - intros e target. destruct e as [| |[u|]| |who| |[u|]]; cbn;
      intros H; repeat (destruct H as [<- | H]; [auto 6|]); destruct H.
  - eexists _, _. split; [reflexivity|].
    rewrite App_cases, find_route_cases. cbn. rewrite H1, H2, H3, Hstar.
    reflexivity.
Qed.

End Journeys.

Lemma redirect_settles_on_login_witness :
  let w := hydrated VNull (boot ∅ "/dashboard") in
  let w1 := {| auth := auth w; localStorage := localStorage w; location := "/login" |} in
  (exact_match "/" "/login" = false
   /\ exact_match "/login" "/login" = true
   /\ exact_match "/" (location w) = false
   /\ exact_match "/login" (location w) = false
   /\ exact_match "/dashboard" (location w) = true
   /\ loading (auth w) = false
   /\ truthy (user (auth w)) = false)
  /\ exists nav page w',
       App exact_match w = Rendered (nav, page)
       /\ markup page = ENull
       /\ commit exact_match w = Ok tt w'
       /\ w' = w1
       /\ App exact_match w' = Rendered (nav, static ELogin)
       /\ commit exact_match w' = Ok tt w'.
Proof.
  cbv zeta. split; [repeat split|].
  exact (redirect_settles_on_login exact_match
           (hydrated VNull (boot ∅ "/dashboard"))
           eq_refl eq_refl eq_refl eq_refl eq_refl eq_refl eq_refl).
Defined.

Lemma handleLogin_reaches_dashboard_witness :
  let w := hydrated VNull (boot ∅ "/login") in
  let u := VObj [("id", VNum 1); ("name", VStr "mae")] in
  (exact_match "/" "/dashboard" = false
   /\ exact_match "/login" "/dashboard" = false
   /\ exact_match "/dashboard" "/dashboard" = true
   /\ loading (auth w) = false)
  /\ exists w1 page,
       LoginPage_handleLogin (AuthProvider_value (auth w)) "mae" w = Ok tt w1
       /\ App exact_match w1 = Rendered (static (ENavigation (Some u)), page)
       /\ markup page = EDashboard (Some u)
       /\ commit exact_match w1 = Ok tt w1.
Proof.
  cbv zeta. split; [repeat split|].
  exact (handleLogin_reaches_dashboard exact_match
           (auth (hydrated VNull (boot ∅ "/login"))) "mae"
           (hydrated VNull (boot ∅ "/login"))
           eq_refl eq_refl eq_refl eq_refl).
Defined.

Lemma signup_link_is_not_routed_witness :
  let w := hydrated VNull (boot ∅ "/login") in
  ((forall p, exact_match "*" p = true)
   /\ exact_match "/" "/signup" = false
   /\ exact_match "/login" "/signup" = false
   /\ exact_match "/dashboard" "/signup" = false)
  /\ exists w1 nav,
       navigate "/signup" w = Ok tt w1
       /\ App exact_match w1 = Rendered (nav, static ENotFound).
Proof.
  cbv zeta.
  assert (H : forall p, exact_match "*" p = true) by (intros p; reflexivity).
  split; [split; [exact H | repeat split]|].
  exact (proj2 (proj2 (proj2
           (signup_link_is_not_routed exact_match AuthProvider_initial
              (hydrated VNull (boot ∅ "/login")) H eq_refl eq_refl eq_refl)))).
Defined.

(** ** What hydration accepts *)

(** A stored text that [JSON.parse] accepts becomes the user with no
    check of its shape, and the guard then goes by its truthiness alone:
    for a falsy value (null, false, 0, the empty string) it redirects to
    [/login]; for any truthy value it hands over to the wrapped children,
    whose own rendering, or error, is the guard's. *)
Theorem hydrated_user_judged_by_truthiness
    (storage : gmap string string) (pathname t : string) (v : value)
    (children : component) :
  storage !! "user" = Some t -> t <> EmptyString -> JSON_parse t = POk v ->
  exists w1,
    AuthProvider_effect (boot storage pathname) = Ok tt w1
    /\ user (auth w1) = v
    /\ loading (auth w1) = false
    /\ realises (if truthy v then RenderProtected else RedirectTo "/login")
                (children (provided (auth w1)))
                (ProtectedRoute children (provided (auth w1))).
Proof.
  intros Hs Ht Hp. exists (hydrated v (boot storage pathname)). split.
  - rewrite AuthProvider_effect_cases. cbn. rewrite Hs. cbn.
    apply String.eqb_neq in Ht. rewrite Ht. cbn. rewrite Hp. reflexivity.
  - split; [reflexivity | split; [reflexivity|]].
    exact (ProtectedRoute_guard (auth (hydrated v (boot storage pathname)))
             children).
Qed.

Lemma hydrated_user_judged_by_truthiness_witness :
  let storage : gmap string string := {[ "user" := "0" ]} in
  (storage !! "user" = Some "0"
   /\ "0" <> EmptyString
   /\ JSON_parse "0" = POk (VNum 0))
  /\ exists w1,
       AuthProvider_effect (boot storage "/dashboard") = Ok tt w1
       /\ user (auth w1) = VNum 0
       /\ loading (auth w1) = false
       /\ realises (RedirectTo "/login")
                   (DashboardPage (provided (auth w1)))
                   (ProtectedRoute DashboardPage (provided (auth w1))).
Proof.
  cbv zeta.
  assert (H1 : ({[ "user" := "0" ]} : gmap string string) !! "user" = Some "0")
    by (vm_compute; reflexivity).
  assert (H2 : "0" <> EmptyString) by discriminate.
  assert (H3 : JSON_parse "0" = POk (VNum 0)) by (vm_compute; reflexivity).
  split; [split; [exact H1 | split; [exact H2 | exact H3]]|].
  exact (hydrated_user_judged_by_truthiness
           {[ "user" := "0" ]} "/dashboard" "0" (VNum 0) DashboardPage H1 H2 H3).
Defined.
